(** * gradio/routes.py: the HTTP route handlers, embedded and verified

    A shallow embedding of [gradio/routes.py]: the path sanitiser
    [safe_join], the cookie login, the auth gate [login_check], the
    prediction handler with its session store, the queue facade and the
    file-serving routes.

    Conventions.
    - A Python [str] is a [string]; a character is an [ascii].
    - A Python [dict] is a [gmap]; [d.get(k)] and [k in d] are lookups.
    - A function that may raise returns an [outcome]; a handler that also
      reads or writes the attributes of [app] is a state transformer
      [handler A := App -> outcome A * App], so that a write made before a
      [raise] stays visible, as in Python.
    - Calls that leave the module ([app.blocks.process_api],
      [traceback.print_exc]) are recorded in [app_trace]. *)

From Stdlib Require Import ZArith Ascii.
From stdpp Require Import gmap strings list fin_maps pretty.

Local Open Scope stdpp_scope.

(* ===================================================================== *)
(** * Part I: definitions *)
(* ===================================================================== *)

(** ** Python string methods used by the module *)

Module str.

(** [s.startswith(pre)] *)
Fixpoint startswith (s pre : string) {struct pre} : bool :=
  match pre, s with
  | EmptyString, _ => true
  | String _ _, EmptyString => false
  | String a pre', String b s' => Ascii.eqb a b && startswith s' pre'
  end.

(** [s.endswith(suf)] *)
Fixpoint endswith (s suf : string) : bool :=
  String.eqb s suf ||
  match s with
  | EmptyString => false
  | String _ s' => endswith s' suf
  end.

(** [sub in s] for two strings *)
Fixpoint contains (sub s : string) : bool :=
  startswith s sub ||
  match s with
  | EmptyString => false
  | String _ s' => contains sub s'
  end.

(** [s.split(sep)] for a separator of one character *)
Fixpoint split (s : string) (sep : ascii) : list string :=
  match s with
  | EmptyString => [EmptyString]
  | String a s' =>
      if Ascii.eqb a sep then EmptyString :: split s' sep
      else match split s' sep with
           | [] => [String a EmptyString]
           | c :: cs => String a c :: cs
           end
  end.

(** [sep.join(comps)] *)
Fixpoint join (sep : string) (comps : list string) : string :=
  match comps with
  | [] => EmptyString
  | [c] => c
  | c :: cs => c +:+ sep +:+ join sep cs
  end.

(** [s * n] *)
Fixpoint mul (s : string) (n : nat) : string :=
  match n with
  | O => EmptyString
  | S n' => s +:+ mul s n'
  end.

End str.

(** ** Exceptions and results *)

(** An exception raised by code outside the module, seen through what the
    handlers observe of it: its class and the text [str(error)] gives. *)
Record BaseException := mkException {
  exc_class : string;
  exc_str : string
}.

Inductive exn :=
| HTTPException (status_code : nat) (detail : string)
| UnboundLocalError (name : string)
| NameError (name : string)
| TypeError (msg : string)
| ValueError (msg : string)
| KeyError (key : string)
| JSONDecodeError (msg : string)
| FileNotFoundError (filename : string)
| RequestValidationError (detail : string)
| Reraised (error : BaseException).

Inductive outcome (A : Type) :=
| Return (a : A)
| Raise (e : exn).
Arguments Return {A} a.
Arguments Raise {A} e.

#[global] Instance outcome_ret : MRet outcome := λ A a, Return a.
#[global] Instance outcome_bind : MBind outcome := λ A B f m,
  match m with
  | Return a => f a
  | Raise e => Raise e
  end.

(** ** [posixpath] (the standard library's pure-Python definitions) *)

Module posixpath.

Definition isabs (s : string) : bool := str.startswith s "/".

(** One turn of the loop [for comp in comps] of [normpath]. *)
Definition normpath_step (initial_slashes : nat)
    (new_comps : list string) (comp : string) : list string :=
  if String.eqb comp "" || String.eqb comp "." then new_comps
  else if negb (String.eqb comp "..")
          || (Nat.eqb initial_slashes 0 && bool_decide (new_comps = []))
          || (negb (bool_decide (new_comps = []))
              && bool_decide (last new_comps = Some ".."))
  then new_comps ++ [comp]
  else if negb (bool_decide (new_comps = [])) then removelast new_comps
  else new_comps.

Definition normpath (path : string) : string :=
  if String.eqb path "" then "."
  else
    let initial_slashes : nat :=
      if str.startswith path "/" then
        if str.startswith path (str.mul "/" 2)
           && negb (str.startswith path (str.mul "/" 3))
        then 2 else 1
      else 0 in
    let comps := str.split path "/" in
    let new_comps := fold_left (normpath_step initial_slashes) comps [] in
    let path := str.join "/" new_comps in
    let path :=
      if Nat.eqb initial_slashes 0 then path
      else str.mul "/" initial_slashes +:+ path in
    if String.eqb path "" then "." else path.

(** [join(a, b)] with one component after the base. *)
Definition join (a b : string) : string :=
  if str.startswith b "/" then b
  else if String.eqb a "" || str.endswith a "/" then a +:+ b
  else a +:+ "/" +:+ b.

End posixpath.

(** ** [os.path]: what depends on the platform *)

Record os_path := mkOs {
  os_sep : string;
  os_altsep : option string;
  os_isabs : string → bool
}.

Definition posix : os_path :=
  {| os_sep := "/"; os_altsep := None; os_isabs := posixpath.isabs |}.

Definition backslash : ascii := "092"%char.

(** [ntpath] as of Python 3.13: a path is absolute with a drive and a
    root, or with two leading separators, and not with one leading
    separator alone. *)
Definition nt_isabs (s : string) : bool :=
  let is_sep (c : ascii) := Ascii.eqb c backslash || Ascii.eqb c "/" in
  match s with
  | String a (String b rest) =>
      (Ascii.eqb b ":" && match rest with
                          | String c _ => is_sep c
                          | EmptyString => false
                          end)
      || (is_sep a && is_sep b)
  | _ => false
  end.

Definition nt : os_path :=
  {| os_sep := String backslash ""; os_altsep := Some "/";
     os_isabs := nt_isabs |}.

(** ** Helper functions of [routes.py] *)

(** A local name that is read before any assignment raises. Read in the
    function that owns it, that is [UnboundLocalError]; read in the
    generator expression nested in it, the name is a free variable there
    and the error is the parent class [NameError]. *)
Definition load_local (name : string) (v : option string) : outcome string :=
  match v with Some x => Return x | None => Raise (UnboundLocalError name) end.
Definition load_free (name : string) (v : option string) : outcome string :=
  match v with Some x => Return x | None => Raise (NameError name) end.

(** [any(sep in filename for sep in seps)]: stops at the first true item;
    [filename] is only read when an item is produced. *)
Fixpoint any_in_filename (filename : option string) (seps : list string)
    : outcome bool :=
  match seps with
  | [] => Return false
  | sep :: seps' =>
      f ← load_free "filename" filename;
      if str.contains sep f then Return true
      else any_in_filename filename seps'
  end.

Definition _os_alt_seps (os : os_path) : list string :=
  filter (λ sep, sep ≠ "/") (omap id [Some (os_sep os); os_altsep os]).

(** The test of the [if] in [safe_join], on a bound [filename]; [or] is
    evaluated left to right. *)
Definition rejects (os : os_path) (filename : string) : bool :=
  existsb (λ sep, str.contains sep filename) (_os_alt_seps os)
  || os_isabs os filename
  || String.eqb filename ".."
  || str.startswith filename "../".

Definition safe_join (os : os_path) (directory path : string)
    : outcome (option string) :=
  let filename : option string :=
    if negb (String.eqb path "") then Some (posixpath.normpath path)
    else None in
  has_alt_sep ← any_in_filename filename (_os_alt_seps os);
  if has_alt_sep : bool then Return None
  else
    f ← load_local "filename" filename;
    if os_isabs os f || String.eqb f ".." || str.startswith f "../"
    then Return None
    else Return (Some (posixpath.join directory f)).

(** ** Values that cross the HTTP boundary *)

(** A parsed JSON document, as [request.json()] builds it and as the
    handlers return it. A [dict] is kept as its items, in order, each key
    once; floats do not occur in what the handlers inspect and are left
    out. *)
#[warnings="-register-all"]
Inductive json :=
| JNull
| JBool (b : bool)
| JInt (n : Z)
| JStr (s : string)
| JList (items : list json)
| JDict (items : list (string * json)).

(** [d[k]] / [d.get(k)] on the items of a [dict] with [str] keys. *)
Fixpoint dict_get (items : list (string * json)) (k : string) : option json :=
  match items with
  | [] => None
  | (k', v) :: items' => if String.eqb k' k then Some v else dict_get items' k
  end.

(** [k in body] for a [str] [k]: key membership on a [dict], item
    membership on a [list], substring on a [str]; the other JSON values
    are not containers. *)
Definition py_in (k : string) (body : json) : outcome bool :=
  match body with
  | JDict items => Return (bool_decide (is_Some (dict_get items k)))
  | JList items =>
      Return (existsb (λ j, match j with JStr s => String.eqb s k | _ => false end)
                      items)
  | JStr s => Return (str.contains k s)
  | JNull => Raise (TypeError "argument of type 'NoneType' is not iterable")
  | JBool _ => Raise (TypeError "argument of type 'bool' is not iterable")
  | JInt _ => Raise (TypeError "argument of type 'int' is not iterable")
  end.

(** [body[k]] for a [str] [k]. *)
Definition py_getitem (body : json) (k : string) : outcome json :=
  match body with
  | JDict items =>
      match dict_get items k with
      | Some v => Return v
      | None => Raise (KeyError k)
      end
  | JList _ => Raise (TypeError "list indices must be integers or slices, not str")
  | JStr _ => Raise (TypeError "string indices must be integers")
  | JNull => Raise (TypeError "'NoneType' object is not subscriptable")
  | JBool _ => Raise (TypeError "'bool' object is not subscriptable")
  | JInt _ => Raise (TypeError "'int' object is not subscriptable")
  end.

(** What can be a key of [app.state_holder]. Python compares keys with
    [==], under which [True] is [1] and [False] is [0]. *)
Inductive hashable :=
| HNone
| HInt (n : Z)
| HStr (s : string).

#[global] Instance hashable_eq_dec : EqDecision hashable.
Proof. solve_decision. Defined.

#[global] Instance hashable_countable : Countable hashable.
Proof.
  refine (inj_countable'
    (λ h, match h with
          | HNone => inl ()
          | HInt n => inr (inl n)
          | HStr s => inr (inr s)
          end)
    (λ x, match x with
          | inl _ => HNone
          | inr (inl n) => HInt n
          | inr (inr s) => HStr s
          end) _).
  by intros [].
Defined.

Definition py_hash (v : json) : outcome hashable :=
  match v with
  | JNull => Return HNone
  | JBool b => Return (HInt (if b then 1 else 0))
  | JInt n => Return (HInt n)
  | JStr s => Return (HStr s)
  | JList _ => Raise (TypeError "unhashable type: 'list'")
  | JDict _ => Raise (TypeError "unhashable type: 'dict'")
  end.

Record cookie := mkCookie {
  cookie_key : string;
  cookie_value : string;
  cookie_httponly : bool
}.

(** The response objects the handlers build. [RedirectResponse] without a
    [status_code] is a 307. [FileResponseResolved] is
    [FileResponse(Path(path).resolve())], named by the parts of the
    resolved path. *)
Inductive response :=
| JSONResponse (content : json) (status_code : nat)
| RedirectResponse (url : string) (status_code : nat) (set_cookie : list cookie)
| FileResponse (path : string)
| FileResponseResolved (parts : list string)
| TemplateResponse (name : string) (config : json).

(** What an endpoint function returns: nothing, a value the framework
    serialises, or a response object. *)
Inductive value :=
| VNone
| VJson (j : json)
| VResponse (r : response).

Record Request := mkRequest {
  req_cookies : gmap string string;
  req_json : outcome json
}.

(** ** The application object and what it reaches *)

(** A block of the UI. [stateful] and [default_value] are attributes only
    some block classes have: [None] is a block without the attribute. *)
Record Block := mkBlock {
  stateful : option bool;
  default_value : option json
}.

(** [getattr(block, "stateful", False)], taken as a condition. *)
Definition getattr_stateful (block : Block) : bool :=
  default false (stateful block).

(** [getattr(block, "default_value", None)] *)
Definition getattr_default_value (block : Block) : json :=
  default JNull (default_value block).

(** The state of one session: block id to current value. *)
Abbreviation session := (gmap Z json).

Inductive examples_t :=
| ExamplesNone
| ExamplesDir (dir : string)
| ExamplesList (rows : list (list json)).

(** [app.blocks]. [process_api] is the processing pipeline, owned by the
    blocks object: from the request body, the user and the session state
    it gives its output or the exception it raises, and the session state
    as it leaves it (the pipeline updates the [dict] it is given in
    place). *)
Record Blocks := mkBlocks {
  config : json;
  auth_message : option string;
  share : bool;
  favicon_path : option string;
  encrypt : bool;
  examples : examples_t;
  encryption_key : string;
  show_error : bool;
  blocks : gmap Z Block;
  input_components : list string;
  process_api : json → option string → session → (json + BaseException) * session
}.

(** [app.auth]: a table of passwords or a predicate. *)
Inductive auth_policy :=
| AuthTable (table : gmap string string)
| AuthCallable (check : string → string → bool).

(** What the handlers record of the calls that leave the module. *)
Inductive event :=
| CallProcessApi (body : json) (username : option string) (session_state : session)
| PrintExc (error : BaseException).

(** Modelled from the spec: the queue engine ([gradio/queueing.py], not
    part of the examined sources) is a table of jobs by hash, each with its
    status and its result. *)
Abbreviation queue_engine := (gmap string (string * json)).

(** The attributes of [app], with the state the handlers reach besides:
    the random source ([app_entropy n] is the string the [n]-th call of
    [secrets.token_urlsafe] gives, [app_drawn] the number of calls so
    far), the jobs of the queue engine, and the trace. *)
Record App := mkApp {
  app_auth : option auth_policy;
  app_tokens : gmap string string;
  app_state_holder : gmap hashable session;
  app_blocks : Blocks;
  app_cwd : string;
  app_entropy : nat → string;
  app_drawn : nat;
  app_queue : queue_engine;
  app_trace : list event
}.

(** The module constants and the platform. [resolve p] is
    [Path(p).resolve()] as its parts, which raises on a path the platform
    cannot hold (an embedded null character); [read_file] is what
    [open(p, "rb")] reads, or the error of [open]; [decrypt] is
    [encryptor.decrypt]. *)
Record Env := mkEnv {
  os : os_path;
  os_basename : string → string;
  STATIC_PATH_LIB : string;
  BUILD_PATH_LIB : string;
  VERSION : string;
  template_exists : string → bool;
  resolve : string → outcome (list string);
  read_file : string → outcome string;
  decrypt : string → string → outcome string
}.

Definition GRADIO_STATIC_ROOT (env : Env) : string :=
  "https://gradio.s3-us-west-2.amazonaws.com/" +:+ VERSION env +:+ "/static/".
Definition GRADIO_BUILD_ROOT (env : Env) : string :=
  "https://gradio.s3-us-west-2.amazonaws.com/" +:+ VERSION env +:+ "/assets/".

(** ** Handlers as state transformers *)

Definition handler (A : Type) : Type := App → outcome A * App.

Definition hret {A} (a : A) : handler A := λ app, (Return a, app).
Definition hraise {A} (e : exn) : handler A := λ app, (Raise e, app).
Definition hbind {A B} (m : handler A) (f : A → handler B) : handler B :=
  λ app, match m app with
         | (Return a, app') => f a app'
         | (Raise e, app') => (Raise e, app')
         end.
Definition lift {A} (o : outcome A) : handler A := λ app, (o, app).
Definition gets {A} (f : App → A) : handler A := λ app, (Return (f app), app).
Definition modify (f : App → App) : handler unit := λ app, (Return (), f app).

#[global] Instance handler_ret : MRet handler := @hret.
#[global] Instance handler_bind : MBind handler := λ A B f m, hbind m f.

Definition set_tokens (t : gmap string string) (app : App) : App :=
  mkApp (app_auth app) t (app_state_holder app) (app_blocks app) (app_cwd app)
        (app_entropy app) (app_drawn app) (app_queue app) (app_trace app).
Definition set_state_holder (h : gmap hashable session) (app : App) : App :=
  mkApp (app_auth app) (app_tokens app) h (app_blocks app) (app_cwd app)
        (app_entropy app) (app_drawn app) (app_queue app) (app_trace app).
Definition set_drawn (n : nat) (app : App) : App :=
  mkApp (app_auth app) (app_tokens app) (app_state_holder app) (app_blocks app)
        (app_cwd app) (app_entropy app) n (app_queue app) (app_trace app).
Definition record (ev : event) (app : App) : App :=
  mkApp (app_auth app) (app_tokens app) (app_state_holder app) (app_blocks app)
        (app_cwd app) (app_entropy app) (app_drawn app) (app_queue app)
        (app_trace app ++ [ev]).

(** ** Auth *)

(** [get_current_user]: [request.cookies.get("access-token")] is [None]
    without the cookie, and [None] is no key of [app.tokens]. *)
Definition get_current_user (request : Request) : handler (option string) :=
  let token := req_cookies request !! "access-token" in
  tokens ← gets app_tokens;
  mret (token ≫= λ t, tokens !! t).

Definition login_check (user : option string) : handler unit :=
  auth ← gets app_auth;
  if bool_decide (auth = None) || negb (bool_decide (user = None)) then mret ()
  else hraise (HTTPException 401 "Not authenticated").

(** [secrets.token_urlsafe(16)] *)
Definition token_urlsafe : handler string :=
  λ app, (Return (app_entropy app (app_drawn app)),
          set_drawn (S (app_drawn app)) app).

(** The condition of [login]. With no policy, [username in app.auth] is a
    membership test on [None]. *)
Definition credentials_ok (auth : option auth_policy) (username password : string)
    : outcome bool :=
  match auth with
  | Some (AuthTable table) =>
      Return (bool_decide (is_Some (table !! username))
              && bool_decide (table !! username = Some password))
  | Some (AuthCallable check) => Return (check username password)
  | None => Raise (TypeError "argument of type 'NoneType' is not iterable")
  end.

Definition login (username password : string) : handler value :=
  auth ← gets app_auth;
  ok ← lift (credentials_ok auth username password);
  if ok : bool then
    token ← token_urlsafe;
    _ ← modify (λ app, set_tokens (<[token := username]> (app_tokens app)) app);
    mret (VResponse (RedirectResponse "/" 302 [mkCookie "access-token" token true]))
  else hraise (HTTPException 400 "Incorrect credentials.").

(** [get_token] *)
Definition get_token (request : Request) : handler value :=
  let token := req_cookies request !! "access-token" in
  tokens ← gets app_tokens;
  mret (VJson (JDict [("token", from_option JStr JNull token);
                      ("user", from_option JStr JNull (token ≫= λ t, tokens !! t))])).

(** ** Main routes *)

Definition reduced_config (b : Blocks) : json :=
  JDict [("auth_required", JBool true);
         ("auth_message", from_option JStr JNull (auth_message b))].

Definition main (env : Env) (user : option string) : handler value :=
  auth ← gets app_auth;
  b ← gets app_blocks;
  let config :=
    if bool_decide (auth = None) || negb (bool_decide (user = None))
    then config b
    else reduced_config b in
  if template_exists env "frontend/index.html"
  then mret (VResponse (TemplateResponse "frontend/index.html" config))
  else hraise (ValueError
    "Did you install Gradio from source files? You need to build the frontend by running /scripts/build_frontend.sh").

Definition get_config : handler value :=
  b ← gets app_blocks;
  mret (VJson (config b)).

Definition static_resource (env : Env) (path : string) : handler value :=
  b ← gets app_blocks;
  if share b
  then mret (VResponse (RedirectResponse (GRADIO_STATIC_ROOT env +:+ path) 307 []))
  else
    static_file ← lift (safe_join (os env) (STATIC_PATH_LIB env) path);
    match static_file with
    | Some f => mret (VResponse (FileResponse f))
    | None => hraise (HTTPException 404 "Static file not found")
    end.

Definition build_resource (env : Env) (path : string) : handler value :=
  b ← gets app_blocks;
  if share b
  then mret (VResponse (RedirectResponse (GRADIO_BUILD_ROOT env +:+ path) 307 []))
  else
    build_file ← lift (safe_join (os env) (BUILD_PATH_LIB env) path);
    match build_file with
    | Some f => mret (VResponse (FileResponse f))
    | None => hraise (HTTPException 404 "Build file not found")
    end.

Definition favicon (env : Env) : handler value :=
  b ← gets app_blocks;
  match favicon_path b with
  | None => static_resource env "img/logo.svg"
  | Some p => mret (VResponse (FileResponse p))
  end.

(** [Path.parents] on the parts of a path: every proper prefix that keeps
    the anchor, nearest first. *)
Definition parents (parts : list string) : list (list string) :=
  (λ n, take n parts) <$> reverse (seq 1 (length parts - 1)).

(** [open(p, "rb").read()], where [p] may be the [None] of [safe_join]. *)
Definition open_rb (env : Env) (p : option string) : outcome string :=
  match p with
  | None => Raise (TypeError "expected str, bytes or os.PathLike object, not NoneType")
  | Some f => read_file env f
  end.

(** In the first branch the file is read and decrypted, and the call of
    [FileResponse] that follows raises: the class takes no keyword
    [attachment_filename]. In the second, [Path(app.cwd).resolve()] is
    computed before [Path(path).resolve()], and the latter once more for
    the response. *)
Definition file (env : Env) (path : string) : handler value :=
  b ← gets app_blocks;
  cwd ← gets app_cwd;
  if encrypt b
     && match examples b with
        | ExamplesDir dir => str.startswith path dir
        | _ => false
        end
  then
    joined ← lift (safe_join (os env) cwd path);
    encrypted_data ← lift (open_rb env joined);
    file_data ← lift (decrypt env (encryption_key b) encrypted_data);
    let attachment_filename := os_basename env path in
    hraise (TypeError
      "FileResponse.__init__() got an unexpected keyword argument 'attachment_filename'")
  else
    cwd_parts ← lift (resolve env cwd);
    path_parts ← lift (resolve env path);
    if bool_decide (cwd_parts ∈ parents path_parts)
    then
      resolved ← lift (resolve env path);
      mret (VResponse (FileResponseResolved resolved))
    else mret VNone.

(** ** Prediction *)

(** The [dict] comprehension of [predict]: the default value of every
    block that is stateful, under the id of the block. *)
Definition initial_session_state (b : Blocks) : session :=
  omap (λ block, if getattr_stateful block
                 then Some (getattr_default_value block) else None)
       (blocks b).

(** The first statement of [predict] after the body is read. The session
    state is a [dict] object: with a [session_hash] it is the very object
    stored in [app.state_holder], named here by its key; without one it is
    a new [dict] that nothing else refers to. *)
Definition resolve_session (body : json) : handler (option hashable * session) :=
  has_hash ← lift (py_in "session_hash" body);
  if has_hash : bool then
    v ← lift (py_getitem body "session_hash");
    k ← lift (py_hash v);
    holder ← gets app_state_holder;
    b ← gets app_blocks;
    _ ← (if bool_decide (holder !! k = None)
         then modify (set_state_holder (<[k := initial_session_state b]> holder))
         else mret ());
    holder' ← gets app_state_holder;
    match holder' !! k with
    | Some session_state => mret (Some k, session_state)
    | None => hraise (KeyError "session_hash")
    end
  else mret (None, ∅).

(** [run_in_threadpool(app.blocks.process_api, body, username,
    session_state)]: the call is recorded, and what the pipeline did to
    the session state is seen through [app.state_holder] when the state is
    the stored object. *)
Definition call_process_api (body : json) (username : option string)
    (ref : option hashable) (session_state : session)
    : handler (json + BaseException) :=
  λ app,
    let '(result, session_state') :=
      process_api (app_blocks app) body username session_state in
    let app1 := record (CallProcessApi body username session_state) app in
    let app2 :=
      match ref with
      | Some k => set_state_holder (<[k := session_state']> (app_state_holder app1)) app1
      | None => app1
      end in
    (Return result, app2).

(** [traceback.print_exc()] *)
Definition print_exc (error : BaseException) : handler unit :=
  modify (record (PrintExc error)).

Definition predict (request : Request) (username : option string) : handler value :=
  body ← lift (req_json request);
  '(ref, session_state) ← resolve_session body;
  result ← call_process_api body username ref session_state;
  b ← gets app_blocks;
  match result with
  | inl output => mret (VJson output)
  | inr error =>
      if show_error b then
        _ ← print_exc error;
        mret (VResponse (JSONResponse (JDict [("error", JStr (exc_str error))]) 500))
      else hraise (Reraised error)
  end.

(** ** Queue facade *)

(** Modelled from the spec: [queueing.get_status] is not part of the
    examined sources. It gives the status and the result of the job with
    that hash, and for a hash the engine does not know the defined status
    ["not_found"] with no result. *)
Definition get_status (hash : string) : handler (string * json) :=
  jobs ← gets app_queue;
  mret (default ("not_found", JNull) (jobs !! hash)).

Definition queue_status (hash : string) : handler value :=
  '(status, data) ← get_status hash;
  mret (VJson (JDict [("status", JStr status); ("data", data)])).

(** ** Routes: the endpoint functions behind their dependencies *)

(** [dependencies=[Depends(login_check)]]: the framework computes
    [get_current_user], calls [login_check] on it, and calls the endpoint
    function only when no dependency has raised. *)
Definition login_required {A} (request : Request) (endpoint : handler A)
    : handler A :=
  user ← get_current_user request;
  _ ← login_check user;
  endpoint.

Definition route_main (env : Env) (request : Request) : handler value :=
  user ← get_current_user request;
  main env user.

Definition route_get_config (request : Request) : handler value :=
  login_required request get_config.


Definition route_predict (request : Request) : handler value :=
  login_required request
    (username ← get_current_user request; predict request username).

(** The body of a request to a route that declares one ([body:
    QueueStatusBody]), as the framework reads it before it resolves any
    dependency: no bytes at all, bytes decoded to a JSON document, bytes of
    another content type, kept as they are, or bytes that were to be JSON
    and are not. *)
Inductive declared_body :=
| NoBody
| JsonBody (document : json)
| OtherBody (data : string)
| NotJson (msg : string).

(** A body that is not JSON ends the request with
    [RequestValidationError] (status 422) before any dependency runs.
    Otherwise the dependencies come first, then the validation of what was
    read against the model, then the endpoint function. [validate] is the
    validation of pydantic against [QueueStatusBody]: the [hash] of the
    body, or the error it raises. *)
Definition route_queue_status (validate : declared_body → outcome string)
    (request : Request) (body : declared_body) : handler value :=
  match body with
  | NotJson msg => hraise (RequestValidationError msg)
  | _ =>
      login_required request
        (hash ← lift (validate body); queue_status hash)
  end.

(** ** Vocabulary of the properties *)

(** The pipeline calls recorded in a trace. *)
Definition is_pipeline_call (ev : event) : bool :=
  match ev with CallProcessApi _ _ _ => true | PrintExc _ => false end.
Definition pipeline_calls (trace : list event) : list event :=
  List.filter is_pipeline_call trace.

(** A path component that names an entry below the directory it is read
    in: not empty, not ["."], not [".."], and without ["/"]. *)
Definition plain_name (c : string) : Prop :=
  c ≠ "" ∧ c ≠ "." ∧ c ≠ ".." ∧ str.contains "/" c = false.

(** A relative path that only descends: ["."], or plain names joined by
    ["/"]. *)
Definition descending (rel : string) : Prop :=
  ∃ comps, Forall plain_name comps
           ∧ rel = match comps with [] => "." | _ => str.join "/" comps end.

(** [p] is lexically inside [directory]: the directory, then a relative
    path that only descends. *)
Definition confined (directory p : string) : Prop :=
  ∃ rel, descending rel
         ∧ p = posixpath.join directory rel
         ∧ str.startswith p directory = true.

(** The shape of [new_comps] in [normpath] on a relative path: some
    leading [".."], then plain names only. *)
Definition climbs_then_descends (new_comps : list string) : Prop :=
  ∃ k rest, new_comps = replicate k ".." ++ rest ∧ Forall plain_name rest.

(** ** A sample deployment, for the concrete cases *)

(** A pipeline for a function of two inputs that keeps a call counter in
    the stateful block 1 and fails when the counter is missing. *)
Definition counting_api (body : json) (username : option string)
    (session_state : session) : (json + BaseException) * session :=
  match session_state !! 1%Z with
  | Some (JInt n) =>
      (inl (JDict [("data", JList [JInt (n + 1)])]),
       <[1%Z := JInt (n + 1)]> session_state)
  | _ => (inr (mkException "KeyError" "1"), session_state)
  end.

Definition sample_blocks (share_ show_error_ : bool) : Blocks :=
  {| config := JDict [("mode", JStr "blocks")];
     auth_message := Some "Please log in";
     share := share_;
     favicon_path := None;
     encrypt := false;
     examples := ExamplesNone;
     encryption_key := "";
     show_error := show_error_;
     blocks := {[ 1%Z := mkBlock (Some true) (Some (JInt 0));
                  2%Z := mkBlock None None;
                  3%Z := mkBlock (Some false) (Some (JInt 7)) ]};
     input_components := ["textbox"; "textbox"];
     process_api := counting_api |}.

Definition sample_app (auth : option auth_policy) (share_ show_error_ : bool) : App :=
  {| app_auth := auth;
     app_tokens := ∅;
     app_state_holder := ∅;
     app_blocks := sample_blocks share_ show_error_;
     app_cwd := "/srv/app";
     app_entropy := λ n, "token-" +:+ pretty n;
     app_drawn := 0;
     app_queue := {[ "j1" := ("completed", JList [JInt 42]) ]};
     app_trace := [] |}.

Definition admin_table : auth_policy := AuthTable {[ "admin" := "secret" ]}.

Definition sample_env : Env :=
  {| os := posix;
     os_basename := λ p, default "" (last (str.split p "/"));
     STATIC_PATH_LIB := "/pkg/gradio/templates/frontend/static";
     BUILD_PATH_LIB := "/pkg/gradio/templates/frontend/assets";
     VERSION := "3.0";
     template_exists := λ _, true;
     resolve := λ p,
       if str.contains (String "000" "") p
       then Raise (ValueError "embedded null byte")
       else Return ("/" :: List.filter (λ c, negb (String.eqb c ""))
                             (str.split (posixpath.normpath
                                           (posixpath.join "/srv/app" p)) "/"));
     read_file := λ f, Raise (FileNotFoundError f);
     decrypt := λ _ data, Return data |}.

(** A validation of [QueueStatusBody] for the concrete cases: the [hash]
    of a JSON object when it is a string. *)
Definition sample_validate (body : declared_body) : outcome string :=
  match body with
  | JsonBody (JDict items) =>
      match dict_get items "hash" with
      | Some (JStr hash) => Return hash
      | _ => Raise (RequestValidationError "hash: str type expected")
      end
  | _ => Raise (RequestValidationError "value is not a valid dict")
  end.

Definition anonymous (body : json) : Request :=
  {| req_cookies := ∅; req_json := Return body |}.

(** The sample blocks with encrypted examples under a directory. *)
Definition encrypted_blocks (dir key : string) : Blocks :=
  {| config := JDict [("mode", JStr "blocks")];
     auth_message := None;
     share := false;
     favicon_path := None;
     encrypt := true;
     examples := ExamplesDir dir;
     encryption_key := key;
     show_error := false;
     blocks := ∅;
     input_components := ["textbox"];
     process_api := counting_api |}.

Definition encrypted_app (dir key : string) : App :=
  {| app_auth := None;
     app_tokens := ∅;
     app_state_holder := ∅;
     app_blocks := encrypted_blocks dir key;
     app_cwd := "/srv/app";
     app_entropy := λ n, "token-" +:+ pretty n;
     app_drawn := 0;
     app_queue := ∅;
     app_trace := [] |}.

(** ** [get_types]: types and descriptions out of docstrings *)

(** The two failures of [get_types]: a method without docstring, for which
    [inspect.getdoc] gives [None], and a docstring without a second
    line. *)
Inductive lookup_error :=
| AttributeError (msg : string)
| IndexError (msg : string).

(** A component class, seen through [inspect.getdoc(cls.preprocess)] and
    [inspect.getdoc(cls.postprocess)]. *)
Record component_class := mkComponentClass {
  getdoc_preprocess : option string;
  getdoc_postprocess : option string
}.

Definition newline : ascii := "010"%char.

(** [doc.split("\n")] *)
Definition doc_lines_of (doc : option string) : lookup_error + list string :=
  match doc with
  | None => inl (AttributeError "'NoneType' object has no attribute 'split'")
  | Some d => inr (str.split d newline)
  end.

(** [doc_lines[1]] and [doc_lines[-1]] *)
Definition second_line (doc_lines : list string) : lookup_error + string :=
  match doc_lines with
  | _ :: line :: _ => inr line
  | _ => inl (IndexError "list index out of range")
  end.
Definition last_line (doc_lines : list string) : lookup_error + string :=
  match last doc_lines with
  | Some line => inr line
  | None => inl (IndexError "list index out of range")
  end.

(** [line.split(":")[-1]] and [line.split(")")[0].split("(")[-1]]; the
    result of [split] has at least one item. *)
Definition doc_of_line (line : string) : string :=
  default "" (last (str.split line ":")).
Definition type_of_line (line : string) : string :=
  default "" (last (str.split (default "" (head (str.split line ")"))) "(")).

(** One of the two [for] loops of [get_types]. *)
Fixpoint get_types_loop (getdoc : component_class → option string)
    (pick : list string → lookup_error + string)
    (cls_set : list component_class) (docset types : list string)
    : lookup_error + (list string * list string) :=
  match cls_set with
  | [] => inr (docset, types)
  | cls :: cls_set' =>
      match doc_lines_of (getdoc cls) with
      | inl e => inl e
      | inr doc_lines =>
          match pick doc_lines with
          | inl e => inl e
          | inr line =>
              get_types_loop getdoc pick cls_set'
                (docset ++ [doc_of_line line]) (types ++ [type_of_line line])
          end
      end
  end.

Definition get_types (cls_set : list component_class) (component : string)
    : lookup_error + (list string * list string) :=
  if String.eqb component "input"
  then get_types_loop getdoc_preprocess second_line cls_set [] []
  else get_types_loop getdoc_postprocess last_line cls_set [] [].

(** A string without the character [sep]. *)
Definition without (sep : ascii) (s : string) : Prop :=
  str.contains (String sep "") s = false.

(* ===================================================================== *)
(** * Part II: properties *)
(* ===================================================================== *)

(** Opens the sequencing of a handler so that its steps can be taken one
    by one. *)
Ltac step_handler :=
  unfold mbind, handler_bind, hbind, lift, gets, modify.

(** ** [posixpath.normpath] on a few inputs *)

Example normpath_collapses :
  posixpath.normpath "a//b/./c/../d" = "a/b/d".
Proof. reflexivity. Qed.

Example normpath_keeps_leading_dotdot :
  posixpath.normpath "a/../../x" = "../x" ∧ posixpath.normpath "a/.." = ".".
Proof. split; reflexivity. Qed.

Example normpath_initial_slashes :
  posixpath.normpath "/../a" = "/a" ∧ posixpath.normpath "//a" = "//a"
  ∧ posixpath.normpath "///a" = "/a".
Proof. repeat split; reflexivity. Qed.

(** ** [safe_join] *)

Lemma any_in_filename_bound f seps :
  any_in_filename (Some f) seps = Return (existsb (λ sep, str.contains sep f) seps).
Proof.
  induction seps as [|sep seps IH]; simpl; [done|].
  destruct (str.contains sep f); simpl; [done|apply IH].
Qed.

Lemma any_in_filename_unbound seps :
  any_in_filename None seps =
    match seps with [] => Return false | _ => Raise (NameError "filename") end.
Proof. by destruct seps. Qed.

Lemma string_eqb_false (a b : string) : a ≠ b → String.eqb a b = false.
Proof. intros H. by apply String.eqb_neq. Qed.

(** On a non-empty path, [safe_join] is its [if] applied to the
    normalised path. *)
Lemma safe_join_nonempty os directory path :
  path ≠ "" →
  safe_join os directory path =
    if rejects os (posixpath.normpath path) then Return None
    else Return (Some (posixpath.join directory (posixpath.normpath path))).
Proof.
  intros Hne. unfold safe_join, rejects.
  rewrite (string_eqb_false path "" Hne). cbn [negb].
  rewrite any_in_filename_bound. cbn [mbind outcome_bind load_local].
  destruct (existsb _ _); cbn [orb]; [done|].
  destruct (os_isabs os _); cbn [orb]; [done|].
  destruct (String.eqb _ ".."); cbn [orb]; [done|].
  by destruct (str.startswith _ "../").
Qed.

(** C1. On a platform where ["."] is a relative name without alternate
    separator (every platform [os.path] supports): a path whose
    normalisation is absolute, contains a separator of the platform other
    than ["/"], is [".."] or starts with ["../"] makes [safe_join] return
    [None], hence no path at all; every other non-empty path gives the base
    directory joined with the normalised path. *)
Theorem safe_join_contract os directory path :
  rejects os "." = false →
  (rejects os (posixpath.normpath path) = true →
     safe_join os directory path = Return None)
  ∧ (path ≠ "" → rejects os (posixpath.normpath path) = false →
     safe_join os directory path
       = Return (Some (posixpath.join directory (posixpath.normpath path)))).
Proof.
  intros Hdot. split.
  - intros Hrej.
    assert (path ≠ "") as Hne.
    { intros ->. cbn in Hrej. congruence. }
    by rewrite (safe_join_nonempty _ _ _ Hne), Hrej.
  - intros Hne Hok. by rewrite (safe_join_nonempty _ _ _ Hne), Hok.
Qed.

Lemma safe_join_contract_witness :
  safe_join posix "/srv/static" "img/../../etc/passwd" = Return None
  ∧ safe_join posix "/srv/static" "img//./logo.svg"
      = Return (Some "/srv/static/img/logo.svg").
Proof.
  split.
  - apply (proj1 (safe_join_contract posix "/srv/static" "img/../../etc/passwd"
                    eq_refl)).
    reflexivity.
  - apply (proj2 (safe_join_contract posix "/srv/static" "img//./logo.svg"
                    eq_refl)).
    + discriminate.
    + reflexivity.
Defined.

(** C10. With the empty path the assignment of [filename] is skipped and
    the first read of the name raises: [UnboundLocalError] from the body of
    [safe_join] when the platform has no alternate separator (the generator
    of [any] then produces no item), [NameError] from inside the generator
    otherwise. No value is returned, neither [None] nor a joined path. *)
Theorem safe_join_empty_path_raises os directory :
  safe_join os directory ""
    = Raise (match _os_alt_seps os with
             | [] => UnboundLocalError "filename"
             | _ => NameError "filename"
             end).
Proof.
  unfold safe_join. simpl. rewrite any_in_filename_unbound.
  by destruct (_os_alt_seps os).
Qed.

Example safe_join_empty_path_posix directory :
  safe_join posix directory "" = Raise (UnboundLocalError "filename").
Proof. reflexivity. Qed.

(** ** [safe_join] never leaves the base directory *)

Lemma startswith_app (a b : string) : str.startswith (a +:+ b) a = true.
Proof.
  induction a as [|c a IH]; simpl; [done|].
  by rewrite Ascii.eqb_refl.
Qed.

Lemma split_nonempty s sep : str.split s sep ≠ [].
Proof.
  destruct s as [|a s]; simpl; [done|].
  destruct (Ascii.eqb a sep); [done|]. by destruct (str.split s sep).
Qed.

Lemma split_no_sep s sep :
  Forall (λ c, str.contains (String sep "") c = false) (str.split s sep).
Proof.
  induction s as [|a s IH]; simpl.
  - by constructor.
  - destruct (Ascii.eqb a sep) eqn:Ha.
    + by constructor.
    + pose proof (split_nonempty s sep) as Hne.
      destruct (str.split s sep) as [|c cs]; [done|].
      inversion IH as [|? ? Hc Hcs]; subst.
      constructor; [|done].
      simpl. rewrite Ascii.eqb_sym, Ha. simpl. exact Hc.
Qed.

Lemma string_eqb_true (a b : string) : String.eqb a b = true → a = b.
Proof. apply String.eqb_eq. Qed.

Lemma last_replicate_app (k : nat) (rest : list string) :
  Forall plain_name rest →
  last (replicate k ".." ++ rest) = Some ".." → rest = [].
Proof.
  intros Hrest Hlast.
  destruct rest as [|x rest _] using rev_ind; [done|].
  rewrite app_assoc, last_snoc in Hlast. injection Hlast as ->.
  apply Forall_app in Hrest as [_ Hx]. inversion Hx as [|? ? Hp _]; subst.
  by destruct Hp as (_ & _ & ? & _).
Qed.

(** One turn of the loop keeps the shape. *)
Lemma normpath_step_shape new_comps comp :
  str.contains "/" comp = false →
  climbs_then_descends new_comps →
  climbs_then_descends (posixpath.normpath_step 0 new_comps comp).
Proof.
  intros Hsep (k & rest & -> & Hrest). unfold posixpath.normpath_step.
  destruct (String.eqb comp "") eqn:He; cbn [orb]; [by exists k, rest|].
  destruct (String.eqb comp ".") eqn:Hd; cbn [orb]; [by exists k, rest|].
  apply String.eqb_neq in He, Hd.
  destruct (String.eqb comp "..") eqn:Hdd; cbn [negb orb].
  - apply string_eqb_true in Hdd as ->. cbn [Nat.eqb andb].
    case_bool_decide as Hnil; cbn [negb andb orb].
    + exists 1, []. by rewrite Hnil.
    + case_bool_decide as Hlast; cbn [negb andb orb].
      * apply last_replicate_app in Hlast as ->; [|done].
        exists (S k), []. rewrite !app_nil_r.
        split; [|done]. by rewrite replicate_S_end.
      * destruct rest as [|x rest _] using rev_ind.
        { rewrite app_nil_r in Hnil, Hlast. destruct k as [|k]; [done|].
          exfalso. apply Hlast. rewrite replicate_S_end. apply last_snoc. }
        rewrite app_assoc, removelast_last.
        exists k, rest. split; [done|]. by apply Forall_app in Hrest as [? _].
  - apply String.eqb_neq in Hdd.
    exists k, (rest ++ [comp]). rewrite app_assoc. split; [done|].
    apply Forall_app. split; [done|]. by repeat constructor.
Qed.

Lemma normpath_loop_shape comps new_comps :
  Forall (λ c, str.contains "/" c = false) comps →
  climbs_then_descends new_comps →
  climbs_then_descends (fold_left (posixpath.normpath_step 0) comps new_comps).
Proof.
  intros Hcomps. revert new_comps.
  induction Hcomps as [|c comps Hc _ IH]; intros new_comps Hshape; simpl.
  - done.
  - apply IH. by apply normpath_step_shape.
Qed.

(** A path that starts with ["/"] keeps a leading ["/"] when normalised. *)
Lemma normpath_keeps_root path :
  str.startswith path "/" = true →
  str.startswith (posixpath.normpath path) "/" = true.
Proof.
  intros Hroot. unfold posixpath.normpath.
  destruct (String.eqb path "") eqn:He.
  { apply string_eqb_true in He. by subst. }
  rewrite Hroot.
  by destruct (str.startswith path (str.mul "/" 2)
               && negb (str.startswith path (str.mul "/" 3))).
Qed.

(** The normal form of a relative path. *)
Lemma normpath_relative path :
  str.startswith path "/" = false →
  ∃ new_comps, climbs_then_descends new_comps
    ∧ posixpath.normpath path
        = if String.eqb (str.join "/" new_comps) "" then "."
          else str.join "/" new_comps.
Proof.
  intros Hrel. unfold posixpath.normpath.
  destruct (String.eqb path "") eqn:He.
  { exists []. split; [by exists 0, []|done]. }
  rewrite Hrel. cbn [Nat.eqb].
  eexists. split; [|done].
  apply normpath_loop_shape; [apply split_no_sep|by exists 0, []].
Qed.

(** A normal form that starts by climbing is [".."] or starts with
    ["../"]. *)
Lemma join_climbing k rest :
  String.eqb (str.join "/" (replicate (S k) ".." ++ rest)) ".."
  || str.startswith (str.join "/" (replicate (S k) ".." ++ rest)) "../" = true.
Proof.
  cbn [replicate app str.join].
  by destruct (replicate k ".." ++ rest).
Qed.

(** Whatever [safe_join] returns on a platform that takes a leading ["/"]
    for absolute is the base directory followed by a path that only
    descends. *)
Lemma safe_join_confined os directory path p :
  (∀ f, str.startswith f "/" = true → os_isabs os f = true) →
  safe_join os directory path = Return (Some p) →
  confined directory p.
Proof.
  intros Habs Hjoin.
  destruct (decide (path = "")) as [->|Hne].
  { unfold safe_join in Hjoin. cbn [String.eqb negb] in Hjoin.
    rewrite any_in_filename_unbound in Hjoin.
    by destruct (_os_alt_seps os). }
  rewrite (safe_join_nonempty _ _ _ Hne) in Hjoin.
  destruct (rejects os (posixpath.normpath path)) eqn:Hrej; [done|].
  injection Hjoin as <-.
  unfold rejects in Hrej.
  apply orb_false_elim in Hrej as [Hrej Hstart].
  apply orb_false_elim in Hrej as [Hrej Hdotdot].
  apply orb_false_elim in Hrej as [_ Hisabs].
  assert (str.startswith (posixpath.normpath path) "/" = false) as Hnoroot.
  { destruct (str.startswith _ "/") eqn:E; [|done].
    apply Habs in E. congruence. }
  assert (str.startswith path "/" = false) as Hrel.
  { destruct (str.startswith path "/") eqn:E; [|done].
    apply normpath_keeps_root in E. congruence. }
  destruct (normpath_relative path Hrel) as (l & (k & rest & -> & Hrest) & Hnorm).
  exists (posixpath.normpath path). split; [|split; [done|]].
  - destruct k as [|k].
    + cbn [replicate app] in Hnorm.
      destruct (String.eqb (str.join "/" rest) "") eqn:E.
      * exists []. by split.
      * exists rest. split; [done|]. rewrite Hnorm. by destruct rest.
    + exfalso. pose proof (join_climbing k rest) as Hclimb.
      destruct (String.eqb (str.join "/" (replicate (S k) ".." ++ rest)) "") eqn:E.
      { apply string_eqb_true in E. rewrite E in Hclimb. done. }
      rewrite <-Hnorm, Hdotdot, Hstart in Hclimb. done.
  - unfold posixpath.join. rewrite Hnoroot.
    destruct (String.eqb directory "" || str.endswith directory "/");
      apply startswith_app.
Qed.

Example safe_join_confined_example :
  confined "/srv/static" "/srv/static/img/logo.svg".
Proof.
  apply (safe_join_confined posix "/srv/static" "img//./logo.svg"); [|done].
  intros f Hf. exact Hf.
Qed.

(** ** The auth gate *)

Lemma get_current_user_run request app :
  get_current_user request app
    = (Return (req_cookies request !! "access-token" ≫= λ t, app_tokens app !! t),
       app).
Proof. reflexivity. Qed.

Lemma login_check_run user app :
  login_check user app =
    match app_auth app, user with
    | Some _, None => (Raise (HTTPException 401 "Not authenticated"), app)
    | _, _ => (Return (), app)
    end.
Proof.
  unfold login_check. step_handler.
  by destruct (app_auth app), user.
Qed.

(** A gated endpoint either stops at the gate, with the state untouched,
    or runs as if it were not gated. *)
Lemma login_required_run {A} request (endpoint : handler A) app :
  login_required request endpoint app =
    match app_auth app,
          req_cookies request !! "access-token" ≫= (λ t, app_tokens app !! t) with
    | Some _, None => (Raise (HTTPException 401 "Not authenticated"), app)
    | _, _ => endpoint app
    end.
Proof.
  pose proof (get_current_user_run request app) as Huser. revert Huser.
  generalize (req_cookies request !! "access-token" ≫= (λ t, app_tokens app !! t)).
  intros user Huser.
  unfold login_required, mbind, handler_bind, hbind.
  rewrite Huser, login_check_run.
  by destruct (app_auth app), user.
Qed.

Lemma no_valid_cookie request app :
  (∀ t, req_cookies request !! "access-token" = Some t → app_tokens app !! t = None) →
  req_cookies request !! "access-token" ≫= (λ t, app_tokens app !! t) = None.
Proof.
  intros H. destruct (req_cookies request !! "access-token") as [t|] eqn:E; [|done].
  simpl. by apply H.
Qed.

(** C3. With an auth policy configured, a request to the predict route
    whose cookie token (if any) is not in the token table is answered 401
    by the gate; the state of the server, trace included, is the one before
    the request, so the pipeline has not been called. *)
Theorem predict_unauthenticated_401 request app :
  app_auth app ≠ None →
  (∀ t, req_cookies request !! "access-token" = Some t → app_tokens app !! t = None) →
  route_predict request app = (Raise (HTTPException 401 "Not authenticated"), app)
  ∧ pipeline_calls (app_trace (route_predict request app).2)
      = pipeline_calls (app_trace app).
Proof.
  intros Hauth Hcookie.
  assert (route_predict request app
          = (Raise (HTTPException 401 "Not authenticated"), app)) as Hrun.
  { unfold route_predict. rewrite login_required_run.
    rewrite (no_valid_cookie _ _ Hcookie).
    by destruct (app_auth app). }
  split; [done|]. by rewrite Hrun.
Qed.

Lemma predict_unauthenticated_401_witness :
  let app := sample_app (Some admin_table) false false in
  let request := {| req_cookies := {[ "access-token" := "forged" ]};
                    req_json := Return (JDict [("data", JList [])]) |} in
  route_predict request app = (Raise (HTTPException 401 "Not authenticated"), app)
  ∧ pipeline_calls (app_trace (route_predict request app).2) = [].
Proof.
  intros app request.
  apply (predict_unauthenticated_401 request app).
  - discriminate.
  - intros t _. apply lookup_empty.
Defined.

(** ** Session state *)

(** What the comprehension of [predict] holds: under the id of each
    stateful block its default value, and nothing for the other blocks. *)
Lemma initial_session_state_lookup b (id : Z) :
  initial_session_state b !! id =
    match blocks b !! id with
    | Some block =>
        if getattr_stateful block then Some (getattr_default_value block) else None
    | None => None
    end.
Proof.
  unfold initial_session_state. rewrite lookup_omap.
  by destruct (blocks b !! id).
Qed.

Lemma resolve_session_with_hash items v k app :
  dict_get items "session_hash" = Some v →
  py_hash v = Return k →
  resolve_session (JDict items) app =
    match app_state_holder app !! k with
    | Some session_state => (Return (Some k, session_state), app)
    | None =>
        (Return (Some k, initial_session_state (app_blocks app)),
         set_state_holder
           (<[k := initial_session_state (app_blocks app)]> (app_state_holder app))
           app)
    end.
Proof.
  intros Hget Hhash.
  unfold resolve_session, py_in, py_getitem. step_handler.
  rewrite Hget, Hhash. cbn [bool_decide]. rewrite bool_decide_true by eauto.
  destruct (app_state_holder app !! k) as [st|] eqn:Hk.
  - rewrite bool_decide_false by done. cbn. by rewrite Hk.
  - rewrite bool_decide_true by done. cbn. by rewrite lookup_insert_eq.
Qed.

Lemma resolve_session_without_hash items app :
  dict_get items "session_hash" = None →
  resolve_session (JDict items) app = (Return (None, ∅), app).
Proof.
  intros Hget.
  unfold resolve_session, py_in. step_handler.
  rewrite Hget. rewrite bool_decide_false; [done|].
  by intros [? ?].
Qed.

(** [resolve_session] only writes [app.state_holder]. *)
Lemma resolve_session_frame body app r app' :
  resolve_session body app = (r, app') →
  app_blocks app' = app_blocks app ∧ app_trace app' = app_trace app
  ∧ app_tokens app' = app_tokens app ∧ app_auth app' = app_auth app.
Proof.
  unfold resolve_session. step_handler.
  destruct (py_in "session_hash" body) as [[|]|e]; [| |];
    try (intros [= <- <-]; done).
  destruct (py_getitem body "session_hash") as [v|e]; [|intros [= <- <-]; done].
  destruct (py_hash v) as [k|e]; [|intros [= <- <-]; done].
  case_bool_decide as Hk; cbn.
  - rewrite lookup_insert_eq. by intros [= <- <-].
  - destruct (app_state_holder app !! k); by intros [= <- <-].
Qed.

Lemma call_process_api_run body username ref session_state app :
  call_process_api body username ref session_state app =
    (Return (process_api (app_blocks app) body username session_state).1,
     let app1 := record (CallProcessApi body username session_state) app in
     match ref with
     | Some k =>
         set_state_holder
           (<[k := (process_api (app_blocks app) body username session_state).2]>
              (app_state_holder app)) app1
     | None => app1
     end).
Proof.
  unfold call_process_api.
  by destruct (process_api (app_blocks app) body username session_state),ref.
Qed.

(** [predict] once the body is read and the session state resolved: one
    call of the pipeline, then the mapping of its result. *)
Lemma predict_run request username app body ref session_state app1 :
  req_json request = Return body →
  resolve_session body app = (Return (ref, session_state), app1) →
  predict request username app =
    let app2 := (call_process_api body username ref session_state app1).2 in
    match (process_api (app_blocks app1) body username session_state).1 with
    | inl output => (Return (VJson output), app2)
    | inr error =>
        if show_error (app_blocks app1)
        then (Return (VResponse
                (JSONResponse (JDict [("error", JStr (exc_str error))]) 500)),
              record (PrintExc error) app2)
        else (Raise (Reraised error), app2)
    end.
Proof.
  intros Hbody Hsession.
  unfold predict, mbind, handler_bind, hbind, lift.
  rewrite Hbody, Hsession, call_process_api_run. cbn [snd].
  destruct (process_api (app_blocks app1) body username session_state)
    as [[output|error] st']; cbn [fst snd].
  - by destruct ref.
  - unfold gets, print_exc, modify, hraise, mret, handler_ret, hret.
    destruct ref; cbn; by destruct (show_error (app_blocks app1)).
Qed.

Lemma pipeline_calls_app t1 t2 :
  pipeline_calls (t1 ++ t2) = pipeline_calls t1 ++ pipeline_calls t2.
Proof. apply List.filter_app. Qed.

(** What one run of [predict] leaves behind, whatever the pipeline
    answers: one more pipeline call in the trace, made with the resolved
    session state, and the state the pipeline left stored back when the
    session is a stored one. *)
Lemma predict_effect request username app body ref session_state app1 :
  req_json request = Return body →
  resolve_session body app = (Return (ref, session_state), app1) →
  let app' := (predict request username app).2 in
  pipeline_calls (app_trace app')
    = pipeline_calls (app_trace app) ++ [CallProcessApi body username session_state]
  ∧ app_state_holder app'
    = match ref with
      | Some k =>
          <[k := (process_api (app_blocks app) body username session_state).2]>
            (app_state_holder app1)
      | None => app_state_holder app1
      end
  ∧ app_blocks app' = app_blocks app.
Proof.
  intros Hbody Hsession.
  destruct (resolve_session_frame _ _ _ _ Hsession) as (Hb & Ht & _ & _).
  rewrite (predict_run _ _ _ _ _ _ _ Hbody Hsession), call_process_api_run.
  cbn [snd]. rewrite Hb.
  destruct (process_api (app_blocks app) body username session_state)
    as [[output|error] st']; cbn [fst snd].
  - destruct ref; cbn; rewrite Ht, pipeline_calls_app; by rewrite ?Hb.
  - destruct (show_error (app_blocks app)), ref; cbn;
      rewrite Ht, ?pipeline_calls_app; cbn; by rewrite ?app_nil_r, ?Hb.
Qed.

(** C2. A request whose body carries a [session_hash]: when the hash is
    not yet a key of [app.state_holder] the pipeline is given a session
    state made of the default value of every stateful block and of nothing
    else, and that state is stored under the hash; when it is a key, the
    pipeline is given the stored state. Either way the state the pipeline
    leaves is the one stored afterwards, so a second request with the same
    hash is served from what the first left, not from the defaults. A
    request without [session_hash] runs on an empty state and leaves
    [app.state_holder] as it was. *)
Theorem session_state_lifecycle request username app items :
  req_json request = Return (JDict items) →
  let b := app_blocks app in
  let body := JDict items in
  let app' := (predict request username app).2 in
  (∀ id : Z,
     initial_session_state b !! id =
       match blocks b !! id with
       | Some block =>
           if getattr_stateful block then Some (getattr_default_value block)
           else None
       | None => None
       end)
  ∧ (∀ v k,
       dict_get items "session_hash" = Some v → py_hash v = Return k →
       let given := default (initial_session_state b) (app_state_holder app !! k) in
       let left := (process_api b body username given).2 in
       pipeline_calls (app_trace app')
         = pipeline_calls (app_trace app) ++ [CallProcessApi body username given]
       ∧ app_state_holder app' = <[k := left]> (app_state_holder app)
       ∧ (∀ request2 username2 items2 v2,
            req_json request2 = Return (JDict items2) →
            dict_get items2 "session_hash" = Some v2 → py_hash v2 = Return k →
            pipeline_calls (app_trace (predict request2 username2 app').2)
              = pipeline_calls (app_trace app')
                ++ [CallProcessApi (JDict items2) username2 left]))
  ∧ (dict_get items "session_hash" = None →
       pipeline_calls (app_trace app')
         = pipeline_calls (app_trace app) ++ [CallProcessApi body username ∅]
       ∧ app_state_holder app' = app_state_holder app).
Proof.
  intros Hbody b body app'. split; [apply initial_session_state_lookup|]. split.
  - intros v k Hget Hhash given left.
    pose proof (resolve_session_with_hash items v k app Hget Hhash) as Hres.
    assert (∃ app1, resolve_session body app = (Return (Some k, given), app1)
                    ∧ <[k := left]> (app_state_holder app1)
                      = <[k := left]> (app_state_holder app)) as (app1 & Hres1 & Hins).
    { subst given. destruct (app_state_holder app !! k) as [st|] eqn:Hk.
      - by exists app.
      - eexists. split; [exact Hres|]. cbn. apply insert_insert_eq. }
    destruct (predict_effect request username app body _ _ _ Hbody Hres1)
      as (Hcalls & Hholder & Hblocks).
    fold app' in Hcalls, Hholder, Hblocks. cbn [default] in Hholder.
    fold b in Hholder. fold left in Hholder. rewrite Hins in Hholder.
    split; [done|]. split; [done|].
    intros request2 username2 items2 v2 Hbody2 Hget2 Hhash2.
    pose proof (resolve_session_with_hash items2 v2 k app' Hget2 Hhash2) as Hres2.
    rewrite Hholder, lookup_insert_eq in Hres2.
    by destruct (predict_effect request2 username2 app' _ _ _ _ Hbody2 Hres2)
      as (-> & _ & _).
  - intros Hget.
    pose proof (resolve_session_without_hash items app Hget) as Hres.
    by destruct (predict_effect request username app body _ _ _ Hbody Hres)
      as (? & ? & _).
Qed.

Lemma session_state_lifecycle_witness :
  let request := anonymous (JDict [("session_hash", JStr "abc"); ("data", JList [])]) in
  let app' := (predict request None (sample_app None false false)).2 in
  pipeline_calls (app_trace app')
    = [CallProcessApi (JDict [("session_hash", JStr "abc"); ("data", JList [])])
         None {[ 1%Z := JInt 0 ]}]
  ∧ app_state_holder app' !! HStr "abc" = Some {[ 1%Z := JInt 1 ]}
  ∧ pipeline_calls (app_trace (predict request None app').2)
    = pipeline_calls (app_trace app')
      ++ [CallProcessApi (JDict [("session_hash", JStr "abc"); ("data", JList [])])
            None {[ 1%Z := JInt 1 ]}].
Proof.
  intros request app'.
  destruct (session_state_lifecycle request None (sample_app None false false)
              [("session_hash", JStr "abc"); ("data", JList [])] eq_refl)
    as (_ & Hhash & _).
  destruct (Hhash (JStr "abc") (HStr "abc") eq_refl eq_refl) as (H1 & H2 & H3).
  split; [exact H1|]. split.
  - fold app' in H2. rewrite H2. apply lookup_insert_eq.
  - exact (H3 request None _ (JStr "abc") eq_refl eq_refl eq_refl).
Defined.

(** ** Pipeline failures *)

(** C4. When the pipeline raises during [predict]: with [show_error] on,
    the traceback is printed on the server and the handler returns the
    JSON response [{"error": str(error)}] with status 500; with
    [show_error] off, the handler raises that same exception, and the
    trace holds the pipeline call and nothing after it: nothing is printed
    and no response is built. *)
Theorem predict_pipeline_exception
    request username app body ref session_state app1 error :
  req_json request = Return body →
  resolve_session body app = (Return (ref, session_state), app1) →
  (process_api (app_blocks app) body username session_state).1 = inr error →
  let called := (call_process_api body username ref session_state app1).2 in
  app_trace called = app_trace app ++ [CallProcessApi body username session_state]
  ∧ (show_error (app_blocks app) = true →
       predict request username app
         = (Return (VResponse
              (JSONResponse (JDict [("error", JStr (exc_str error))]) 500)),
            record (PrintExc error) called))
  ∧ (show_error (app_blocks app) = false →
       predict request username app = (Raise (Reraised error), called)).
Proof.
  intros Hbody Hsession Herror called.
  destruct (resolve_session_frame _ _ _ _ Hsession) as (Hb & Ht & _ & _).
  pose proof (predict_run _ username _ _ _ _ _ Hbody Hsession) as Hrun.
  rewrite Hb, Herror in Hrun. fold called in Hrun.
  split.
  - subst called. rewrite call_process_api_run. cbn [snd].
    destruct ref; cbn; by rewrite Ht.
  - split; intros Hshow; by rewrite Hshow in Hrun.
Qed.

Lemma predict_pipeline_exception_witness :
  let body := JDict [("data", JList [])] in
  predict (anonymous body) None (sample_app None false true)
    = (Return (VResponse (JSONResponse (JDict [("error", JStr "1")]) 500)),
       record (PrintExc (mkException "KeyError" "1"))
         (record (CallProcessApi body None ∅) (sample_app None false true)))
  ∧ predict (anonymous body) None (sample_app None false false)
    = (Raise (Reraised (mkException "KeyError" "1")),
       record (CallProcessApi body None ∅) (sample_app None false false)).
Proof.
  intros body. split.
  - exact (proj1 (proj2 (predict_pipeline_exception (anonymous body) None
             (sample_app None false true) body None ∅ _
             (mkException "KeyError" "1") eq_refl eq_refl eq_refl)) eq_refl).
  - exact (proj2 (proj2 (predict_pipeline_exception (anonymous body) None
             (sample_app None false false) body None ∅ _
             (mkException "KeyError" "1") eq_refl eq_refl eq_refl)) eq_refl).
Defined.

(** ** No check of the length of [data] *)

(** C7, as the code has it. [predict] does not compare the length of
    [data] with the number of input components: every request whose body
    parses and whose session state resolves reaches the pipeline, exactly
    once and with the body as received. Refusing a wrong number of inputs
    is left to the pipeline. *)
Theorem predict_forwards_any_data request username app body ref session_state app1 :
  req_json request = Return body →
  resolve_session body app = (Return (ref, session_state), app1) →
  pipeline_calls (app_trace (predict request username app).2)
    = pipeline_calls (app_trace app) ++ [CallProcessApi body username session_state].
Proof.
  intros Hbody Hsession.
  by destruct (predict_effect _ username _ _ _ _ _ Hbody Hsession) as (? & _).
Qed.

Lemma predict_forwards_any_data_witness :
  let body := JDict [("data", JList [JInt 1; JInt 2; JInt 3])] in
  pipeline_calls (app_trace (predict (anonymous body) None
                               (sample_app None false false)).2)
    = [CallProcessApi body None ∅].
Proof.
  intros body.
  exact (predict_forwards_any_data (anonymous body) None
           (sample_app None false false) body None ∅ _ eq_refl eq_refl).
Defined.

(** C7 as the specification states it fails: three values sent to a
    function of two inputs go through the gate, reach the pipeline, and
    the answer of the pipeline is returned. *)
Lemma predict_length_mismatch_reaches_pipeline :
  let items := [("session_hash", JStr "abc");
                ("data", JList [JInt 1; JInt 2; JInt 3])] in
  let app := sample_app None false false in
  dict_get items "data" = Some (JList [JInt 1; JInt 2; JInt 3])
  ∧ length [JInt 1; JInt 2; JInt 3] ≠ length (input_components (app_blocks app))
  ∧ (route_predict (anonymous (JDict items)) app).1
    = Return (VJson (JDict [("data", JList [JInt 1])]))
  ∧ pipeline_calls (app_trace (route_predict (anonymous (JDict items)) app).2)
    = [CallProcessApi (JDict items) None {[ 1%Z := JInt 0 ]}]
  ∧ pipeline_calls (app_trace (route_predict (anonymous (JDict items)) app).2)
    ≠ pipeline_calls (app_trace app).
Proof. repeat split; done. Qed.

(** ** Login *)

Lemma credentials_ok_table table username password :
  credentials_ok (Some (AuthTable table)) username password
    = Return (bool_decide (table !! username = Some password)).
Proof.
  unfold credentials_ok. f_equal.
  destruct (table !! username) as [stored|] eqn:E.
  - rewrite bool_decide_true by eauto. done.
  - rewrite bool_decide_false; [|by intros [? ?]].
    by rewrite bool_decide_false.
Qed.

Lemma login_table_run app table username password :
  app_auth app = Some (AuthTable table) →
  login username password app =
    if bool_decide (table !! username = Some password)
    then
      let token := app_entropy app (app_drawn app) in
      (Return (VResponse
         (RedirectResponse "/" 302 [mkCookie "access-token" token true])),
       set_tokens (<[token := username]> (app_tokens app))
         (set_drawn (S (app_drawn app)) app))
    else (Raise (HTTPException 400 "Incorrect credentials."), app).
Proof.
  intros Hauth. unfold login. step_handler.
  rewrite Hauth, credentials_ok_table.
  by case_bool_decide.
Qed.

(** C5. Under a table policy, login succeeds exactly when the table maps
    the username to the password given. A success draws a token from the
    random source, stores it in [app.tokens] under the username and
    answers with a 302 redirect to ["/"] that sets the http-only cookie
    [access-token]; anything else is answered 400 and changes nothing. *)
Theorem login_table_policy app table username password :
  app_auth app = Some (AuthTable table) →
  let token := app_entropy app (app_drawn app) in
  ((∃ r app', login username password app = (Return r, app'))
     ↔ table !! username = Some password)
  ∧ (table !! username = Some password →
       login username password app
         = (Return (VResponse
              (RedirectResponse "/" 302 [mkCookie "access-token" token true])),
            set_tokens (<[token := username]> (app_tokens app))
              (set_drawn (S (app_drawn app)) app)))
  ∧ (table !! username ≠ Some password →
       login username password app
         = (Raise (HTTPException 400 "Incorrect credentials."), app)).
Proof.
  intros Hauth token.
  pose proof (login_table_run app table username password Hauth) as Hrun.
  fold token in Hrun. case_bool_decide as Hpw.
  - split; [split; eauto|]. split; [done|]. by intros [].
  - split; [|split; done].
    split; [|done]. intros (r & app' & Hr). congruence.
Qed.

Lemma login_table_policy_witness :
  login "admin" "secret" (sample_app (Some admin_table) false false)
    = (Return (VResponse
         (RedirectResponse "/" 302 [mkCookie "access-token" "token-0" true])),
       set_tokens {[ "token-0" := "admin" ]}
         (set_drawn 1 (sample_app (Some admin_table) false false)))
  ∧ login "admin" "Secret" (sample_app (Some admin_table) false false)
    = (Raise (HTTPException 400 "Incorrect credentials."),
       sample_app (Some admin_table) false false)
  ∧ login "root" "secret" (sample_app (Some admin_table) false false)
    = (Raise (HTTPException 400 "Incorrect credentials."),
       sample_app (Some admin_table) false false).
Proof.
  split; [|split].
  - exact (proj1 (proj2 (login_table_policy
             (sample_app (Some admin_table) false false)
             {[ "admin" := "secret" ]} "admin" "secret" eq_refl)) eq_refl).
  - apply (proj2 (proj2 (login_table_policy
             (sample_app (Some admin_table) false false)
             {[ "admin" := "secret" ]} "admin" "Secret" eq_refl))).
    vm_compute. discriminate.
  - apply (proj2 (proj2 (login_table_policy
             (sample_app (Some admin_table) false false)
             {[ "admin" := "secret" ]} "root" "secret" eq_refl))).
    vm_compute. discriminate.
Defined.

(** The scenario of the specification: after the login of [admin], the
    cookie it was given names [admin] in [get_token]. *)
Example login_then_get_token :
  let app' := (login "admin" "secret" (sample_app (Some admin_table) false false)).2 in
  (get_token {| req_cookies := {[ "access-token" := "token-0" ]};
                req_json := Return JNull |} app').1
    = Return (VJson (JDict [("token", JStr "token-0"); ("user", JStr "admin")])).
Proof. reflexivity. Qed.

(** ** The configuration document *)

(** C6, as the code has it. With an auth policy configured, [GET /config]
    gives an authenticated caller the full configuration document and
    answers an unauthenticated caller 401 at the gate, with no document.
    The reduced document [{auth_required: true, auth_message}] is what
    [GET /] hands to the page template for an unauthenticated caller. *)
Theorem get_config_gated env request app :
  app_auth app ≠ None →
  let user := req_cookies request !! "access-token" ≫= (λ t, app_tokens app !! t) in
  (is_Some user →
     route_get_config request app = (Return (VJson (config (app_blocks app))), app))
  ∧ (user = None →
     route_get_config request app
       = (Raise (HTTPException 401 "Not authenticated"), app)
     ∧ (template_exists env "frontend/index.html" = true →
        route_main env request app
          = (Return (VResponse (TemplateResponse "frontend/index.html"
                                  (reduced_config (app_blocks app)))),
             app))).
Proof.
  intros Hauth user. unfold route_get_config, route_main.
  rewrite login_required_run.
  unfold mbind at 3, handler_bind, hbind.
  rewrite get_current_user_run. fold user.
  destruct (app_auth app) as [policy|] eqn:Ha; [|done].
  split.
  - intros [u Hu]. by rewrite Hu.
  - intros Hu. rewrite Hu. split; [done|]. intros Htpl.
    unfold main. step_handler. rewrite Ha, Htpl. done.
Qed.

Lemma get_config_gated_witness :
  let app := sample_app (Some admin_table) false false in
  route_get_config (anonymous JNull) app
    = (Raise (HTTPException 401 "Not authenticated"), app)
  ∧ route_main sample_env (anonymous JNull) app
    = (Return (VResponse (TemplateResponse "frontend/index.html"
         (JDict [("auth_required", JBool true);
                 ("auth_message", JStr "Please log in")]))),
       app).
Proof.
  intros app.
  assert (app_auth app ≠ None) as Hauth by done.
  destruct (proj2 (get_config_gated sample_env (anonymous JNull) app Hauth) eq_refl)
    as [H401 Hmain].
  split; [exact H401|exact (Hmain eq_refl)].
Defined.

(** C6 as the specification states it fails: the unauthenticated caller of
    [GET /config] gets the 401 of the gate, not the reduced document. *)
Lemma get_config_unauthenticated_is_401 :
  let app := sample_app (Some admin_table) false false in
  let request := anonymous JNull in
  app_auth app ≠ None
  ∧ (get_current_user request app).1 = Return None
  ∧ (route_get_config request app).1 = Raise (HTTPException 401 "Not authenticated")
  ∧ (route_get_config request app).1
    ≠ Return (VJson (reduced_config (app_blocks app))).
Proof. repeat split; done. Qed.

(** ** The queue facade *)

(** C8. The status endpoint reshapes what the queue engine answers: for a
    hash the engine does not know, the envelope
    [{"status": "not_found", "data": null}], returned and not raised; for a
    known hash, the status and the result of the job as
    [{"status": status, "data": data}]. The state of the server is not
    changed. *)
Theorem queue_status_envelope hash app :
  match app_queue app !! hash with
  | None =>
      queue_status hash app
        = (Return (VJson (JDict [("status", JStr "not_found"); ("data", JNull)])),
           app)
  | Some (status, data) =>
      queue_status hash app
        = (Return (VJson (JDict [("status", JStr status); ("data", data)])), app)
  end.
Proof.
  unfold queue_status, get_status. step_handler.
  by destruct (app_queue app !! hash) as [[status data]|].
Qed.

Example queue_status_unknown_hash :
  queue_status "zzz" (sample_app None false false)
    = (Return (VJson (JDict [("status", JStr "not_found"); ("data", JNull)])),
       sample_app None false false).
Proof. reflexivity. Qed.

Example queue_status_known_hash :
  (queue_status "j1" (sample_app None false false)).1
    = Return (VJson (JDict [("status", JStr "completed");
                            ("data", JList [JInt 42])])).
Proof. reflexivity. Qed.

(** Behind the gate the route answers the same whenever the gate lets the
    request through. *)
Lemma route_queue_status_open validate request body hash app :
  app_auth app = None →
  (∀ msg, body ≠ NotJson msg) →
  validate body = Return hash →
  route_queue_status validate request body app = queue_status hash app.
Proof.
  intros Hauth Hjson Hhash. unfold route_queue_status.
  destruct body; try (by exfalso; eapply Hjson);
    rewrite login_required_run, Hauth;
    unfold mbind, handler_bind, hbind, lift; by rewrite Hhash.
Qed.

(** ** The file-serving routes *)

Lemma parents_proper_prefix (x parts : list string) :
  x ∈ parents parts → ∃ rest, rest ≠ [] ∧ parts = x ++ rest.
Proof.
  unfold parents. intros (n & -> & Hn)%list_elem_of_fmap.
  rewrite elem_of_reverse, elem_of_seq in Hn.
  exists (drop n parts). split; [|by rewrite take_drop].
  intros Hnil. apply (f_equal length) in Hnil. rewrite length_drop in Hnil.
  simpl in Hnil. lia.
Qed.

Lemma static_resource_run env path app :
  static_resource env path app =
    if share (app_blocks app)
    then (Return (VResponse (RedirectResponse (GRADIO_STATIC_ROOT env +:+ path) 307 [])),
          app)
    else match safe_join (os env) (STATIC_PATH_LIB env) path with
         | Return (Some f) => (Return (VResponse (FileResponse f)), app)
         | Return None => (Raise (HTTPException 404 "Static file not found"), app)
         | Raise e => (Raise e, app)
         end.
Proof.
  unfold static_resource. step_handler.
  destruct (share (app_blocks app)); [done|].
  by destruct (safe_join _ _ _) as [[f|]|e].
Qed.

Lemma build_resource_run env path app :
  build_resource env path app =
    if share (app_blocks app)
    then (Return (VResponse (RedirectResponse (GRADIO_BUILD_ROOT env +:+ path) 307 [])),
          app)
    else match safe_join (os env) (BUILD_PATH_LIB env) path with
         | Return (Some f) => (Return (VResponse (FileResponse f)), app)
         | Return None => (Raise (HTTPException 404 "Build file not found"), app)
         | Raise e => (Raise e, app)
         end.
Proof.
  unfold build_resource. step_handler.
  destruct (share (app_blocks app)); [done|].
  by destruct (safe_join _ _ _) as [[f|]|e].
Qed.

Lemma file_run env path app :
  file env path app =
    let b := app_blocks app in
    if encrypt b
       && match examples b with
          | ExamplesDir dir => str.startswith path dir
          | _ => false
          end
    then
      match safe_join (os env) (app_cwd app) path with
      | Raise e => (Raise e, app)
      | Return joined =>
          match open_rb env joined with
          | Raise e => (Raise e, app)
          | Return encrypted_data =>
              match decrypt env (encryption_key b) encrypted_data with
              | Raise e => (Raise e, app)
              | Return _ =>
                  (Raise (TypeError
                     "FileResponse.__init__() got an unexpected keyword argument 'attachment_filename'"),
                   app)
              end
          end
      end
    else
      match resolve env (app_cwd app) with
      | Raise e => (Raise e, app)
      | Return cwd_parts =>
          match resolve env path with
          | Raise e => (Raise e, app)
          | Return path_parts =>
              if bool_decide (cwd_parts ∈ parents path_parts)
              then (Return (VResponse (FileResponseResolved path_parts)), app)
              else (Return VNone, app)
          end
      end.
Proof.
  unfold file. step_handler. cbn zeta.
  destruct (encrypt (app_blocks app) && _).
  - destruct (safe_join _ _ _) as [joined|e]; [|done].
    destruct (open_rb env joined) as [encrypted_data|e]; [|done].
    by destruct (decrypt env _ encrypted_data).
  - destruct (resolve env (app_cwd app)) as [cwd_parts|e]; [|done].
    destruct (resolve env path) as [path_parts|e]; [|done].
    by case_bool_decide.
Qed.

(** C9, as the code has it. On [/static] and [/assets] outside share mode
    a non-empty path that [safe_join] refuses is answered 404; in share
    mode every path is answered with a redirect to the hosted copy and no
    local file is named. On a platform that takes a leading ["/"] for
    absolute, a file these two routes serve is lexically inside their
    root. Whatever [/file] answers with a response is a file named by its
    resolved path, which has the resolved working directory as a proper
    ancestor. *)
Theorem file_routes_stay_in_root env app path :
  (share (app_blocks app) = false → path ≠ "" →
   rejects (os env) (posixpath.normpath path) = true →
     static_resource env path app
       = (Raise (HTTPException 404 "Static file not found"), app)
     ∧ build_resource env path app
       = (Raise (HTTPException 404 "Build file not found"), app))
  ∧ (share (app_blocks app) = true →
     static_resource env path app
       = (Return (VResponse
            (RedirectResponse (GRADIO_STATIC_ROOT env +:+ path) 307 [])), app)
     ∧ build_resource env path app
       = (Return (VResponse
            (RedirectResponse (GRADIO_BUILD_ROOT env +:+ path) 307 [])), app))
  ∧ ((∀ f, str.startswith f "/" = true → os_isabs (os env) f = true) →
     (∀ f app',
        static_resource env path app = (Return (VResponse (FileResponse f)), app') →
        confined (STATIC_PATH_LIB env) f)
     ∧ (∀ f app',
          build_resource env path app = (Return (VResponse (FileResponse f)), app') →
          confined (BUILD_PATH_LIB env) f))
  ∧ (∀ r app',
       file env path app = (Return (VResponse r), app') →
       ∃ parts cwd_parts rest,
         r = FileResponseResolved parts
         ∧ resolve env path = Return parts
         ∧ resolve env (app_cwd app) = Return cwd_parts
         ∧ rest ≠ [] ∧ parts = cwd_parts ++ rest).
Proof.
  rewrite static_resource_run, build_resource_run, file_run.
  split; [|split; [|split]].
  - intros -> Hne Hrej. by rewrite !(safe_join_nonempty _ _ _ Hne), Hrej.
  - by intros ->.
  - intros Habs. split.
    + intros f app'. destruct (share (app_blocks app)); [done|].
      destruct (safe_join _ _ _) as [[f'|]|e] eqn:Hjoin; [|done..].
      intros [= <- _]. by eapply safe_join_confined.
    + intros f app'. destruct (share (app_blocks app)); [done|].
      destruct (safe_join _ _ _) as [[f'|]|e] eqn:Hjoin; [|done..].
      intros [= <- _]. by eapply safe_join_confined.
  - intros r app'. cbn zeta.
    destruct (encrypt (app_blocks app) && _).
    + destruct (safe_join _ _ _) as [joined|e]; [|done].
      destruct (open_rb env joined) as [encrypted_data|e]; [|done].
      by destruct (decrypt env _ encrypted_data).
    + destruct (resolve env (app_cwd app)) as [cwd_parts|e]; [|done].
      destruct (resolve env path) as [path_parts|e]; [|done].
      case_bool_decide as Hin; [|done].
      intros [= <- _].
      destruct (parents_proper_prefix _ _ Hin) as (rest & Hrest & Hparts).
      by exists path_parts, cwd_parts, rest.
Qed.

Lemma posix_root_is_absolute f :
  str.startswith f "/" = true → os_isabs (os sample_env) f = true.
Proof. done. Qed.

Lemma file_routes_stay_in_root_witness :
  let app := sample_app None false false in
  (static_resource sample_env "img/../../etc/passwd" app
     = (Raise (HTTPException 404 "Static file not found"), app)
   ∧ build_resource sample_env "img/../../etc/passwd" app
     = (Raise (HTTPException 404 "Build file not found"), app))
  ∧ confined (STATIC_PATH_LIB sample_env)
      "/pkg/gradio/templates/frontend/static/img/logo.svg".
Proof.
  intros app. split.
  - apply (proj1 (file_routes_stay_in_root sample_env app "img/../../etc/passwd")).
    + reflexivity.
    + discriminate.
    + reflexivity.
  - apply (proj1 (proj1 (proj2 (proj2 (file_routes_stay_in_root sample_env app
                    "img/logo.svg"))) posix_root_is_absolute) _ app).
    reflexivity.
Defined.

(** C9 as the specification states it fails: in share mode a path that
    climbs out of the static root is answered with a redirect, not with
    404. *)
Lemma static_resource_share_redirects_traversal :
  let app := sample_app None true false in
  let path := "img/../../etc/passwd" in
  rejects (os sample_env) (posixpath.normpath path) = true
  ∧ static_resource sample_env path app
    = (Return (VResponse (RedirectResponse
         "https://gradio.s3-us-west-2.amazonaws.com/3.0/static/img/../../etc/passwd"
         307 [])), app)
  ∧ (static_resource sample_env path app).1
    ≠ Raise (HTTPException 404 "Static file not found").
Proof. repeat split; done. Qed.

(** Why the platform matters: where one leading ["/"] is not absolute,
    [safe_join] lets such a path through and [posixpath.join] drops the
    base directory. *)
Example safe_join_rooted_path_on_nt :
  safe_join nt "C:/gradio/static" "/Windows/win.ini"
    = Return (Some "/Windows/win.ini").
Proof. reflexivity. Qed.

(** What [/file] answers to a path outside the working directory: in the
    plain branch the function ends without a [return], so the answer is
    the value [None]; in the encrypted branch the [None] of [safe_join]
    goes to [open], which raises. Neither is the 404 of the two other
    routes. *)
Example file_outside_cwd_returns_none :
  let app := sample_app None false false in
  resolve sample_env (app_cwd app) = Return ["/"; "srv"; "app"]
  ∧ resolve sample_env "../../etc/passwd" = Return ["/"; "etc"; "passwd"]
  ∧ file sample_env "../../etc/passwd" app = (Return VNone, app).
Proof. repeat split; reflexivity. Qed.

Example file_encrypted_outside_cwd_raises :
  let app := encrypted_app "examples" "key" in
  safe_join (os sample_env) (app_cwd app) "examples/../../etc/passwd" = Return None
  ∧ file sample_env "examples/../../etc/passwd" app
    = (Raise (TypeError "expected str, bytes or os.PathLike object, not NoneType"),
       app).
Proof. split; reflexivity. Qed.

Example file_inside_cwd_served :
  file sample_env "data/out.png" (sample_app None false false)
    = (Return (VResponse (FileResponseResolved ["/"; "srv"; "app"; "data"; "out.png"])),
       sample_app None false false).
Proof. reflexivity. Qed.

Example static_resource_empty_path_raises :
  static_resource sample_env "" (sample_app None false false)
    = (Raise (UnboundLocalError "filename"), sample_app None false false).
Proof. reflexivity. Qed.

(* ===================================================================== *)
(** * Part III: further properties of the module *)
(* ===================================================================== *)

(** ** [posixpath.normpath]: normal forms *)

Lemma contains_slash_cons a c :
  str.contains "/" (String a c) = false →
  Ascii.eqb "/" a = false ∧ str.contains "/" c = false.
Proof.
  cbn [str.contains str.startswith]. intros [H1 H2]%orb_false_elim.
  by rewrite andb_true_r in H1.
Qed.

Lemma plain_name_no_sep c : plain_name c → str.contains "/" c = false.
Proof. by intros (_ & _ & _ & ?). Qed.

(** A name without ["/"] is one component, and stays one in front of a
    separator. *)
Lemma split_single c :
  str.contains "/" c = false → str.split c "/" = [c].
Proof.
  induction c as [|a c IH]; [done|].
  intros [Ha Hc]%contains_slash_cons. simpl.
  rewrite Ascii.eqb_sym in Ha. rewrite Ha, (IH Hc). done.
Qed.

Lemma split_app_sep c s :
  str.contains "/" c = false →
  str.split (c +:+ String "/" s) "/" = c :: str.split s "/".
Proof.
  induction c as [|a c IH]; [done|].
  intros [Ha Hc]%contains_slash_cons. simpl.
  rewrite Ascii.eqb_sym in Ha. rewrite Ha, (IH Hc). done.
Qed.

(** [split] undoes [join] on components without separator. *)
Lemma split_join comps :
  comps ≠ [] →
  Forall (λ c, str.contains "/" c = false) comps →
  str.split (str.join "/" comps) "/" = comps.
Proof.
  intros Hne Hcomps. induction Hcomps as [|c comps Hc Hcomps IH]; [done|].
  destruct comps as [|c' comps].
  - by apply split_single.
  - change (str.join "/" (c :: c' :: comps))
      with (c +:+ String "/" (str.join "/" (c' :: comps))).
    rewrite (split_app_sep _ _ Hc), IH; done.
Qed.

Lemma startswith_cons a pre b s :
  str.startswith (String b s) (String a pre)
    = Ascii.eqb a b && str.startswith s pre.
Proof. reflexivity. Qed.

Lemma startswith_slash_app c s :
  c ≠ "" → str.contains "/" c = false →
  str.startswith (c +:+ s) "/" = false.
Proof.
  destruct c as [|a c]; [done|]. intros _ [Ha _]%contains_slash_cons.
  change (String a c +:+ s) with (String a (c +:+ s)).
  by rewrite startswith_cons, Ha.
Qed.

Lemma append_empty_r (c : string) : c +:+ "" = c.
Proof.
  induction c as [|a c IH]; [done|].
  change (String a (c +:+ "") = String a c). by rewrite IH.
Qed.

Lemma join_cons_app c comps :
  ∃ s, str.join "/" (c :: comps) = c +:+ s.
Proof.
  destruct comps as [|c' comps].
  - exists "". by rewrite append_empty_r.
  - by eexists.
Qed.

(** Joined components that start with a name do not start with ["/"]. *)
Lemma join_not_rooted comps :
  Forall (λ c, c ≠ "" ∧ str.contains "/" c = false) comps →
  str.startswith (str.join "/" comps) "/" = false.
Proof.
  intros Hcomps. destruct Hcomps as [|c comps [Hne Hc] _]; [done|].
  destruct (join_cons_app c comps) as [s ->]. by apply startswith_slash_app.
Qed.

(** [normpath] on a non-empty path, with the count of initial slashes
    named. *)
Lemma normpath_eval path initial_slashes :
  path ≠ "" →
  (if str.startswith path "/"
   then if str.startswith path "//" && negb (str.startswith path "///")
        then 2 else 1
   else 0) = initial_slashes →
  posixpath.normpath path =
    let joined :=
      str.join "/" (fold_left (posixpath.normpath_step initial_slashes)
                              (str.split path "/") []) in
    let path' :=
      if Nat.eqb initial_slashes 0 then joined
      else str.mul "/" initial_slashes +:+ joined in
    if String.eqb path' "" then "." else path'.
Proof.
  intros Hne <-. unfold posixpath.normpath.
  by rewrite (string_eqb_false path "" Hne).
Qed.

(** A plain name is appended, whatever came before. *)
Lemma normpath_step_plain initial_slashes new_comps comp :
  plain_name comp →
  posixpath.normpath_step initial_slashes new_comps comp = new_comps ++ [comp].
Proof.
  intros (He & Hd & Hdd & _). unfold posixpath.normpath_step.
  by rewrite (string_eqb_false _ _ He), (string_eqb_false _ _ Hd),
             (string_eqb_false _ _ Hdd).
Qed.

Lemma normpath_loop_plain initial_slashes comps new_comps :
  Forall plain_name comps →
  fold_left (posixpath.normpath_step initial_slashes) comps new_comps
    = new_comps ++ comps.
Proof.
  intros Hcomps. revert new_comps.
  induction Hcomps as [|c comps Hc _ IH]; intros new_comps; simpl.
  - by rewrite app_nil_r.
  - by rewrite (normpath_step_plain _ _ _ Hc), IH, <-app_assoc.
Qed.

(** On a relative path a [".."] after nothing but [".."] is kept. *)
Lemma normpath_step_climb k :
  posixpath.normpath_step 0 (replicate k "..") ".." = replicate (S k) "..".
Proof.
  unfold posixpath.normpath_step. cbn [String.eqb Ascii.eqb orb negb Nat.eqb andb].
  destruct k as [|k]; [done|].
  rewrite bool_decide_false by done. cbn [negb andb orb].
  rewrite bool_decide_true.
  - by rewrite <-replicate_S_end.
  - rewrite replicate_S_end. apply last_snoc.
Qed.

Lemma normpath_loop_climb k j :
  fold_left (posixpath.normpath_step 0) (replicate k "..") (replicate j "..")
    = replicate (j + k) "..".
Proof.
  revert j. induction k as [|k IH]; intros j; simpl.
  - by rewrite Nat.add_0_r.
  - rewrite normpath_step_climb, IH. f_equal. lia.
Qed.

(** The loop of [normpath] leaves a normal form of a relative path as it
    is. *)
Lemma normpath_loop_normal_form k rest :
  Forall plain_name rest →
  fold_left (posixpath.normpath_step 0) (replicate k ".." ++ rest) []
    = replicate k ".." ++ rest.
Proof.
  intros Hrest. rewrite fold_left_app.
  change (@nil string) with (replicate 0 "..") at 1.
  rewrite normpath_loop_climb. by apply normpath_loop_plain.
Qed.

(** On an absolute path the loop only ever holds plain names: a [".."] at
    the root is dropped. *)
Lemma normpath_step_rooted initial_slashes new_comps comp :
  initial_slashes ≠ 0 →
  str.contains "/" comp = false →
  Forall plain_name new_comps →
  Forall plain_name (posixpath.normpath_step initial_slashes new_comps comp).
Proof.
  intros Hroot Hsep Hplain. unfold posixpath.normpath_step.
  destruct (String.eqb comp "") eqn:He; cbn [orb]; [done|].
  destruct (String.eqb comp ".") eqn:Hd; cbn [orb]; [done|].
  apply String.eqb_neq in He, Hd.
  destruct (String.eqb comp "..") eqn:Hdd; cbn [negb orb].
  - destruct initial_slashes as [|n]; [done|]. cbn [Nat.eqb andb orb].
    case_bool_decide as Hnil; cbn [negb andb].
    { by subst. }
    case_bool_decide as Hlast.
    + exfalso. destruct new_comps as [|x l _] using rev_ind; [done|].
      rewrite last_snoc in Hlast. injection Hlast as ->.
      apply Forall_app in Hplain as [_ Hx]. inversion Hx as [|? ? Hp _]; subst.
      by destruct Hp as (_ & _ & ? & _).
    + destruct new_comps as [|x l _] using rev_ind; [done|].
      rewrite removelast_last. by apply Forall_app in Hplain as [? _].
  - apply String.eqb_neq in Hdd.
    apply Forall_app. split; [done|]. by repeat constructor.
Qed.

Lemma normpath_loop_rooted initial_slashes comps new_comps :
  initial_slashes ≠ 0 →
  Forall (λ c, str.contains "/" c = false) comps →
  Forall plain_name new_comps →
  Forall plain_name
    (fold_left (posixpath.normpath_step initial_slashes) comps new_comps).
Proof.
  intros Hroot Hcomps. revert new_comps.
  induction Hcomps as [|c comps Hc _ IH]; intros new_comps Hplain; simpl.
  - done.
  - apply IH. by apply normpath_step_rooted.
Qed.

Lemma dotdot_sound : (".." : string) ≠ "" ∧ str.contains "/" ".." = false.
Proof. done. Qed.

Lemma normal_form_names k rest :
  Forall plain_name rest →
  Forall (λ c, c ≠ "" ∧ str.contains "/" c = false) (replicate k ".." ++ rest).
Proof.
  intros Hrest. apply Forall_app. split.
  - apply Forall_replicate. exact dotdot_sound.
  - eapply Forall_impl; [exact Hrest|]. by intros c (? & _ & _ & ?).
Qed.

Lemma join_nonempty comps :
  comps ≠ [] →
  Forall (λ c, c ≠ "" ∧ str.contains "/" c = false) comps →
  str.join "/" comps ≠ "".
Proof.
  intros Hne Hcomps. destruct Hcomps as [|c comps [Hc _] _]; [done|].
  destruct (join_cons_app c comps) as [s ->]. by destruct c.
Qed.

(** A relative normal form is a fixed point of [normpath]. *)
Lemma normpath_relative_fixed k rest :
  Forall plain_name rest →
  replicate k ".." ++ rest ≠ [] →
  posixpath.normpath (str.join "/" (replicate k ".." ++ rest))
    = str.join "/" (replicate k ".." ++ rest).
Proof.
  intros Hrest Hne.
  pose proof (normal_form_names k rest Hrest) as Hnames.
  pose proof (join_nonempty _ Hne Hnames) as Hjoin.
  rewrite (normpath_eval _ 0 Hjoin).
  - cbn zeta. cbn [Nat.eqb].
    rewrite split_join, normpath_loop_normal_form; [|done|done|].
    + by rewrite (string_eqb_false _ _ Hjoin).
    + eapply Forall_impl; [exact Hnames|]. by intros c [_ ?].
  - by rewrite (join_not_rooted _ Hnames).
Qed.

Lemma plain_names_sound comps :
  Forall plain_name comps →
  Forall (λ c, c ≠ "" ∧ str.contains "/" c = false) comps.
Proof. apply (normal_form_names 0). Qed.

(** What [split] gives on joined plain names, up to the empty component of
    an empty path. *)
Lemma loop_split_join_plain initial_slashes comps new_comps :
  Forall plain_name comps →
  fold_left (posixpath.normpath_step initial_slashes)
            (str.split (str.join "/" comps) "/") new_comps
    = new_comps ++ comps.
Proof.
  intros Hcomps. destruct comps as [|c comps].
  - simpl. by rewrite app_nil_r.
  - rewrite split_join; [by apply normpath_loop_plain|done|].
    eapply Forall_impl; [exact (plain_names_sound _ Hcomps)|]. by intros ? [_ ?].
Qed.

(** An absolute normal form is a fixed point of [normpath]. *)
Lemma normpath_absolute_fixed n comps :
  n = 1 ∨ n = 2 →
  Forall plain_name comps →
  posixpath.normpath (str.mul "/" n +:+ str.join "/" comps)
    = str.mul "/" n +:+ str.join "/" comps.
Proof.
  intros Hn Hcomps.
  pose proof (join_not_rooted _ (plain_names_sound _ Hcomps)) as Hrel.
  destruct Hn as [-> | ->].
  - change (str.mul "/" 1 +:+ ?s) with (String "/" s).
    rewrite (normpath_eval _ 1); [| done |].
    + cbn zeta. cbn [Nat.eqb]. simpl str.split.
      change (posixpath.normpath_step 1 [] "") with (@nil string).
      change (fold_left ?f ("" :: ?l) []) with (fold_left f l (f [] "")).
      change (posixpath.normpath_step 1 [] "") with (@nil string).
      by rewrite loop_split_join_plain.
    + rewrite !startswith_cons, Hrel. by rewrite andb_false_r.
  - change (str.mul "/" 2 +:+ ?s) with (String "/" (String "/" s)).
    rewrite (normpath_eval _ 2); [| done |].
    + cbn zeta. cbn [Nat.eqb]. simpl str.split.
      change (fold_left ?f ("" :: "" :: ?l) [])
        with (fold_left f l (f (f [] "") "")).
      change (posixpath.normpath_step 2 [] "") with (@nil string).
      change (posixpath.normpath_step 2 [] "") with (@nil string).
      by rewrite loop_split_join_plain.
    + rewrite !startswith_cons, Hrel. by rewrite !andb_false_r.
Qed.

Lemma normpath_absolute path :
  str.startswith path "/" = true →
  ∃ n comps, (n = 1 ∨ n = 2) ∧ Forall plain_name comps
    ∧ (n = 2 ↔ str.startswith path "//" = true ∧ str.startswith path "///" = false)
    ∧ posixpath.normpath path = str.mul "/" n +:+ str.join "/" comps.
Proof.
  intros Hroot.
  assert (path ≠ "") as Hne by (by intros ->).
  set (n := if str.startswith path "//" && negb (str.startswith path "///")
            then 2 else 1).
  assert (n = 1 ∨ n = 2) as Hn.
  { subst n. destruct (_ && _); auto. }
  assert (n ≠ 0) as Hn0 by (destruct Hn; lia).
  exists n, (fold_left (posixpath.normpath_step n) (str.split path "/") []).
  split; [done|]. split.
  { apply normpath_loop_rooted; [done|apply split_no_sep|constructor]. }
  split.
  { subst n. destruct (str.startswith path "//"), (str.startswith path "///");
      cbn; split; intros; try done; try lia; naive_solver. }
  rewrite (normpath_eval path n Hne) by (by rewrite Hroot).
  cbn zeta. destruct Hn as [-> | ->]; cbn [Nat.eqb]; done.
Qed.

(** X1. The normal form of a relative path. After normalisation a relative
    path is ["."], or a run of [".."] followed by plain names: no empty
    component, no ["."], and no [".."] after a name. *)
Theorem normpath_relative_form path :
  str.startswith path "/" = false →
  ∃ k rest, Forall plain_name rest
    ∧ posixpath.normpath path
        = match replicate k ".." ++ rest with
          | [] => "."
          | comps => str.join "/" comps
          end.
Proof.
  intros Hrel.
  destruct (normpath_relative path Hrel) as (l & (k & rest & -> & Hrest) & ->).
  exists k, rest. split; [done|].
  destruct (replicate k ".." ++ rest) as [|c l] eqn:Hl; [done|].
  rewrite string_eqb_false; [done|].
  rewrite <-Hl. apply join_nonempty; [by rewrite Hl|by apply normal_form_names].
Qed.

Lemma normpath_relative_form_witness :
  ∃ k rest, Forall plain_name rest
    ∧ posixpath.normpath "a/./../../x//y/"
        = match replicate k ".." ++ rest with
          | [] => "."
          | comps => str.join "/" comps
          end.
Proof. exact (normpath_relative_form "a/./../../x//y/" eq_refl). Defined.

(** X2. The normal form of an absolute path. A path that starts with ["/"]
    normalises to one slash, or two when it starts with exactly two,
    followed by plain names only: [".."] never survives, so the result
    cannot climb above the root. *)
Theorem normpath_absolute_form path :
  str.startswith path "/" = true →
  ∃ n comps, (n = 1 ∨ n = 2) ∧ Forall plain_name comps
    ∧ (n = 2 ↔ str.startswith path "//" = true ∧ str.startswith path "///" = false)
    ∧ posixpath.normpath path = str.mul "/" n +:+ str.join "/" comps.
Proof. apply normpath_absolute. Qed.

Lemma normpath_absolute_form_witness :
  ∃ n comps, (n = 1 ∨ n = 2) ∧ Forall plain_name comps
    ∧ (n = 2 ↔ str.startswith "/../a//b/../c" "//" = true
               ∧ str.startswith "/../a//b/../c" "///" = false)
    ∧ posixpath.normpath "/../a//b/../c" = str.mul "/" n +:+ str.join "/" comps.
Proof. exact (normpath_absolute_form "/../a//b/../c" eq_refl). Defined.

Lemma normpath_fixed path :
  posixpath.normpath (posixpath.normpath path) = posixpath.normpath path.
Proof.
  destruct (str.startswith path "/") eqn:Hroot.
  - destruct (normpath_absolute path Hroot) as (n & comps & Hn & Hcomps & _ & ->).
    by apply normpath_absolute_fixed.
  - destruct (normpath_relative path Hroot) as (l & (k & rest & -> & Hrest) & ->).
    destruct (String.eqb _ "") eqn:E; [done|].
    apply normpath_relative_fixed; [done|].
    intros Hnil. by rewrite Hnil in E.
Qed.

(** X3. [normpath] is idempotent: a normalised path is its own normal
    form. *)
Theorem normpath_idempotent path :
  posixpath.normpath (posixpath.normpath path) = posixpath.normpath path.
Proof. apply normpath_fixed. Qed.

(** ** [safe_join]: when it raises, what it refuses, what it accepts *)

Lemma safe_join_empty os directory :
  ∃ e, safe_join os directory "" = Raise e.
Proof.
  unfold safe_join. cbn [String.eqb negb]. rewrite any_in_filename_unbound.
  destruct (_os_alt_seps os); by eexists.
Qed.

(** X4. [safe_join] raises on the empty path and on no other: every
    non-empty path gets an answer, [None] or a joined path, on every
    platform. *)
Theorem safe_join_raises_iff_empty os directory path :
  (∃ e, safe_join os directory path = Raise e) ↔ path = "".
Proof.
  split.
  - intros [e He]. destruct (decide (path = "")) as [|Hne]; [done|].
    rewrite (safe_join_nonempty _ _ _ Hne) in He.
    by destruct (rejects os (posixpath.normpath path)).
  - intros ->. apply safe_join_empty.
Qed.

(** X5. What [safe_join] returns is inside the base directory. On a
    platform that takes a leading ["/"] for absolute, a returned path is
    the base directory followed by ["."] or by plain names joined with
    ["/"], and starts with the base directory. *)
Theorem safe_join_stays_in_directory os directory path p :
  (∀ f, str.startswith f "/" = true → os_isabs os f = true) →
  safe_join os directory path = Return (Some p) →
  confined directory p.
Proof. apply safe_join_confined. Qed.

Lemma safe_join_stays_in_directory_witness :
  confined "/srv/static" "/srv/static/css/site.css".
Proof.
  apply (safe_join_stays_in_directory posix "/srv/static" "js/../css//site.css").
  - intros f Hf. exact Hf.
  - reflexivity.
Defined.

(** X6. A path that starts with ["/"] is refused wherever a leading ["/"]
    is absolute, whatever follows the slash. *)
Theorem safe_join_refuses_rooted os directory path :
  (∀ f, str.startswith f "/" = true → os_isabs os f = true) →
  str.startswith path "/" = true →
  safe_join os directory path = Return None.
Proof.
  intros Habs Hroot.
  assert (path ≠ "") as Hne by (by intros ->).
  rewrite (safe_join_nonempty _ _ _ Hne).
  unfold rejects. rewrite (Habs _ (normpath_keeps_root _ Hroot)).
  by rewrite orb_true_r.
Qed.

Lemma safe_join_refuses_rooted_witness :
  safe_join posix "/srv/static" "/srv/static/../../etc/passwd" = Return None.
Proof.
  apply (safe_join_refuses_rooted posix).
  - intros f Hf. exact Hf.
  - reflexivity.
Defined.

Lemma normpath_nonempty path : posixpath.normpath path ≠ "".
Proof.
  unfold posixpath.normpath.
  destruct (String.eqb path ""); [done|].
  match goal with |- (if String.eqb ?p "" then _ else _) ≠ _ =>
    destruct (String.eqb p "") eqn:E end; [done|].
  by apply String.eqb_neq in E.
Qed.

(** X7. [safe_join] only looks at the normal form of the path: a non-empty
    path and its normalisation get the same answer. *)
Theorem safe_join_normalised os directory path :
  path ≠ "" →
  safe_join os directory (posixpath.normpath path) = safe_join os directory path.
Proof.
  intros Hne.
  rewrite (safe_join_nonempty _ _ _ Hne).
  rewrite (safe_join_nonempty _ _ _ (normpath_nonempty path)).
  by rewrite normpath_fixed.
Qed.

Lemma safe_join_normalised_witness :
  safe_join posix "/srv/static" (posixpath.normpath "img/./x/../logo.svg")
    = safe_join posix "/srv/static" "img/./x/../logo.svg".
Proof. apply (safe_join_normalised posix). discriminate. Defined.

Lemma join_cons_tail c comps :
  ∃ s, str.join "/" (c :: comps) = c +:+ s ∧ (s = "" ∨ ∃ s', s = String "/" s').
Proof.
  destruct comps as [|c' comps].
  - exists "". split; [by rewrite append_empty_r|by left].
  - eexists. split; [reflexivity|]. right. by eexists.
Qed.

Lemma string_eqb_cons a s b t :
  String.eqb (String a s) (String b t) = Ascii.eqb a b && String.eqb s t.
Proof. reflexivity. Qed.

Lemma ascii_eqb_false (a b : ascii) : a ≠ b → Ascii.eqb a b = false.
Proof. intros H. by apply Ascii.eqb_neq. Qed.

(** Plain names joined by ["/"] are neither [".."] nor below it. *)
Lemma plain_join_not_climbing comps :
  comps ≠ [] → Forall plain_name comps →
  String.eqb (str.join "/" comps) ".." = false
  ∧ str.startswith (str.join "/" comps) "../" = false.
Proof.
  intros Hne Hcomps. destruct Hcomps as [|c comps Hc _]; [done|].
  destruct (join_cons_tail c comps) as (s & -> & Hs).
  destruct Hc as (He & Hd & Hdd & Hsep).
  destruct c as [|a1 c]; [done|].
  apply contains_slash_cons in Hsep as [H1 Hsep].
  change (String a1 c +:+ s) with (String a1 (c +:+ s)).
  rewrite string_eqb_cons, startswith_cons.
  destruct (decide (a1 = "."%char)) as [->|Ha1].
  2:{ rewrite (ascii_eqb_false _ _ Ha1).
      rewrite ascii_eqb_false by (by intros <-). done. }
  rewrite !Ascii.eqb_refl. cbn [andb].
  destruct c as [|a2 c].
  { destruct Hs as [-> | [s' ->]]; done. }
  apply contains_slash_cons in Hsep as [H2 Hsep].
  change (String a2 c +:+ s) with (String a2 (c +:+ s)).
  rewrite string_eqb_cons, startswith_cons.
  destruct (decide (a2 = "."%char)) as [->|Ha2].
  2:{ rewrite (ascii_eqb_false _ _ Ha2).
      rewrite ascii_eqb_false by (by intros <-). done. }
  rewrite !Ascii.eqb_refl. cbn [andb].
  destruct c as [|a3 c]; [done|].
  apply contains_slash_cons in Hsep as [H3 _].
  change (String a3 c +:+ s) with (String a3 (c +:+ s)).
  rewrite startswith_cons, H3. done.
Qed.

Lemma posix_no_alt_seps : _os_alt_seps posix = [].
Proof. reflexivity. Qed.

Lemma safe_join_plain directory comps :
  comps ≠ [] → Forall plain_name comps →
  safe_join posix directory (str.join "/" comps)
    = Return (Some (posixpath.join directory (str.join "/" comps))).
Proof.
  intros Hne Hcomps.
  pose proof (plain_names_sound _ Hcomps) as Hnames.
  rewrite (safe_join_nonempty _ _ _ (join_nonempty _ Hne Hnames)).
  pose proof (normpath_relative_fixed 0 comps Hcomps Hne) as Hfixed.
  cbn [replicate app] in Hfixed. rewrite Hfixed.
  unfold rejects. rewrite posix_no_alt_seps. cbn [existsb orb posix os_isabs].
  unfold posixpath.isabs. rewrite (join_not_rooted _ Hnames).
  destruct (plain_join_not_climbing comps Hne Hcomps) as [-> ->]. done.
Qed.

(** X8. On POSIX a clean relative path is accepted as it is: plain names
    joined by ["/"] come back joined to the base directory, unchanged. *)
Theorem safe_join_accepts_plain directory comps :
  comps ≠ [] → Forall plain_name comps →
  safe_join posix directory (str.join "/" comps)
    = Return (Some (posixpath.join directory (str.join "/" comps))).
Proof. apply safe_join_plain. Qed.

Lemma safe_join_accepts_plain_witness :
  safe_join posix "/srv/static" "img/icons/logo.svg"
    = Return (Some "/srv/static/img/icons/logo.svg").
Proof.
  apply (safe_join_accepts_plain "/srv/static" ["img"; "icons"; "logo.svg"]).
  - discriminate.
  - repeat constructor; discriminate.
Defined.

(** ** Login, under every policy *)

Lemma login_run username password app :
  login username password app =
    match credentials_ok (app_auth app) username password with
    | Return true =>
        let token := app_entropy app (app_drawn app) in
        (Return (VResponse
           (RedirectResponse "/" 302 [mkCookie "access-token" token true])),
         set_tokens (<[token := username]> (app_tokens app))
           (set_drawn (S (app_drawn app)) app))
    | Return false => (Raise (HTTPException 400 "Incorrect credentials."), app)
    | Raise e => (Raise e, app)
    end.
Proof.
  unfold login. step_handler.
  by destruct (credentials_ok (app_auth app) username password) as [[|]|e].
Qed.

(** X9. Under a callable policy, login succeeds exactly when the callable
    accepts the pair; a refusal is answered 400 and changes nothing. *)
Theorem login_callable_policy app check username password :
  app_auth app = Some (AuthCallable check) →
  let token := app_entropy app (app_drawn app) in
  (check username password = true →
     login username password app
       = (Return (VResponse
            (RedirectResponse "/" 302 [mkCookie "access-token" token true])),
          set_tokens (<[token := username]> (app_tokens app))
            (set_drawn (S (app_drawn app)) app)))
  ∧ (check username password = false →
     login username password app
       = (Raise (HTTPException 400 "Incorrect credentials."), app)).
Proof.
  intros Hauth token. rewrite login_run, Hauth. cbn [credentials_ok].
  split; by intros ->.
Qed.

Lemma login_callable_policy_witness :
  let app := sample_app (Some (AuthCallable (λ u p, String.eqb p (u +:+ "!"))))
               false false in
  login "ann" "ann!" app
    = (Return (VResponse
         (RedirectResponse "/" 302 [mkCookie "access-token" "token-0" true])),
       set_tokens {[ "token-0" := "ann" ]} (set_drawn 1 app))
  ∧ login "ann" "bob!" app
    = (Raise (HTTPException 400 "Incorrect credentials."), app).
Proof.
  intros app. split.
  - exact (proj1 (login_callable_policy app _ "ann" "ann!" eq_refl) eq_refl).
  - exact (proj2 (login_callable_policy app _ "ann" "bob!" eq_refl) eq_refl).
Defined.

(** X10. With no auth policy the login route fails on its membership test:
    it raises [TypeError], for every username and password, and stores no
    token. *)
Theorem login_without_policy app username password :
  app_auth app = None →
  login username password app
    = (Raise (TypeError "argument of type 'NoneType' is not iterable"), app).
Proof. intros Hauth. by rewrite login_run, Hauth. Qed.

Lemma login_without_policy_witness :
  login "admin" "secret" (sample_app None false false)
    = (Raise (TypeError "argument of type 'NoneType' is not iterable"),
       sample_app None false false).
Proof. by apply login_without_policy. Defined.

(** X11. The cookie a successful login sets opens the gate. Whatever the
    policy, when [login] returns, its answer is the redirect that sets
    [access-token], and a later request carrying that cookie is seen as
    the user who logged in: by [get_current_user], by [get_token], and by
    the gate of every gated route, which lets it through. *)
Theorem login_then_authenticated app username password r app' :
  login username password app = (Return r, app') →
  ∃ token,
    r = VResponse (RedirectResponse "/" 302 [mkCookie "access-token" token true])
    ∧ ∀ request, req_cookies request !! "access-token" = Some token →
        get_current_user request app' = (Return (Some username), app')
        ∧ get_token request app'
          = (Return (VJson (JDict [("token", JStr token); ("user", JStr username)])),
             app')
        ∧ ∀ A (endpoint : handler A),
            login_required request endpoint app' = endpoint app'.
Proof.
  rewrite login_run.
  destruct (credentials_ok (app_auth app) username password) as [[|]|e];
    [|done..].
  intros [= <- <-]. eexists. split; [done|].
  intros request Hcookie.
  assert (req_cookies request !! "access-token"
            ≫= (λ t, app_tokens
                       (set_tokens
                          (<[app_entropy app (app_drawn app) := username]>
                             (app_tokens app))
                          (set_drawn (S (app_drawn app)) app)) !! t)
          = Some username) as Huser.
  { rewrite Hcookie. cbn. apply lookup_insert_eq. }
  split; [by rewrite get_current_user_run, Huser|]. split.
  - unfold get_token. step_handler. cbn. rewrite Hcookie. cbn.
    by rewrite lookup_insert_eq.
  - intros A endpoint. rewrite login_required_run, Huser.
    by destruct (app_auth _).
Qed.

Lemma login_then_authenticated_witness :
  ∃ token,
    VResponse (RedirectResponse "/" 302 [mkCookie "access-token" "token-0" true])
      = VResponse (RedirectResponse "/" 302 [mkCookie "access-token" token true])
    ∧ ∀ request, req_cookies request !! "access-token" = Some token →
        let app' := set_tokens {[ "token-0" := "admin" ]}
                      (set_drawn 1 (sample_app (Some admin_table) false false)) in
        get_current_user request app' = (Return (Some "admin"), app')
        ∧ get_token request app'
          = (Return (VJson (JDict [("token", JStr token); ("user", JStr "admin")])),
             app')
        ∧ ∀ A (endpoint : handler A),
            login_required request endpoint app' = endpoint app'.
Proof.
  exact (login_then_authenticated (sample_app (Some admin_table) false false)
           "admin" "secret" _ _ eq_refl).
Defined.

(** X12. A login never logs anybody out. Whatever its outcome, every token
    other than the one just drawn names the same user as before, the
    sessions are untouched, and nothing is recorded. *)
Theorem login_keeps_tokens app username password :
  let app' := (login username password app).2 in
  (∀ t, t ≠ app_entropy app (app_drawn app) →
        app_tokens app' !! t = app_tokens app !! t)
  ∧ (∀ t, is_Some (app_tokens app !! t) → is_Some (app_tokens app' !! t))
  ∧ app_state_holder app' = app_state_holder app
  ∧ app_trace app' = app_trace app
  ∧ app_auth app' = app_auth app.
Proof.
  rewrite login_run.
  destruct (credentials_ok (app_auth app) username password) as [[|]|e];
    cbn; try done.
  split; [|split; [|done]].
  - intros t Ht. by rewrite lookup_insert_ne.
  - intros t Ht. destruct (decide (app_entropy app (app_drawn app) = t)) as [->|Hne].
    + rewrite lookup_insert_eq. eauto.
    + by rewrite lookup_insert_ne.
Qed.

(** ** The gate, on every gated route *)



(** The same request with a body that is not JSON: the validation error
    comes before the gate. *)
Example queue_status_not_json_before_gate :
  let app := sample_app (Some admin_table) false false in
  route_queue_status sample_validate (anonymous JNull) (NotJson "Expecting value") app
    = (Raise (RequestValidationError "Expecting value"), app).
Proof. reflexivity. Qed.



(** ** The page *)

(** X15. [GET /] never answers 401. When the page template is there, it is
    rendered for every caller, with the full configuration when no policy
    is configured or the caller is logged in and with the reduced document
    otherwise; when the template is missing, every caller gets the
    [ValueError] that asks for a frontend build. The state of the server
    is unchanged. *)
Theorem main_page env request app :
  let user := req_cookies request !! "access-token" ≫= (λ t, app_tokens app !! t) in
  let b := app_blocks app in
  route_main env request app =
    if template_exists env "frontend/index.html"
    then (Return (VResponse (TemplateResponse "frontend/index.html"
            (match app_auth app, user with
             | Some _, None => reduced_config b
             | _, _ => config b
             end))), app)
    else (Raise (ValueError
      "Did you install Gradio from source files? You need to build the frontend by running /scripts/build_frontend.sh"),
      app).
Proof.
  intros user b. unfold route_main.
  unfold mbind, handler_bind, hbind. rewrite get_current_user_run. fold user.
  unfold main. step_handler. fold b.
  destruct (template_exists env "frontend/index.html");
    by destruct (app_auth app), user.
Qed.

(** ** The static routes and the icon *)

(** X16. A request for [/static/] or [/assets/] with nothing after the
    slash. In share mode it is redirected to the hosted root; otherwise
    [safe_join] raises on the empty path, so the routes answer with the
    unbound-name error, not with 404. The state of the server is
    unchanged. *)
Theorem static_routes_empty_path env app :
  (share (app_blocks app) = true →
     static_resource env "" app
       = (Return (VResponse (RedirectResponse (GRADIO_STATIC_ROOT env +:+ "") 307 [])),
          app)
     ∧ build_resource env "" app
       = (Return (VResponse (RedirectResponse (GRADIO_BUILD_ROOT env +:+ "") 307 [])),
          app))
  ∧ (share (app_blocks app) = false →
     ∃ e, (e = UnboundLocalError "filename" ∨ e = NameError "filename")
          ∧ static_resource env "" app = (Raise e, app)
          ∧ build_resource env "" app = (Raise e, app)).
Proof.
  rewrite static_resource_run, build_resource_run. split; intros ->; [done|].
  unfold safe_join. cbn [String.eqb negb]. rewrite any_in_filename_unbound.
  destruct (_os_alt_seps (os env)); eexists; (split; [|done]); auto.
Qed.

Lemma static_routes_empty_path_witness :
  ∃ e, (e = UnboundLocalError "filename" ∨ e = NameError "filename")
       ∧ static_resource sample_env "" (sample_app None false false)
         = (Raise e, sample_app None false false)
       ∧ build_resource sample_env "" (sample_app None false false)
         = (Raise e, sample_app None false false).
Proof.
  exact (proj2 (static_routes_empty_path sample_env (sample_app None false false))
           eq_refl).
Defined.

(** X17. The icon is always found. On POSIX [favicon] never raises and never
    answers 404: it serves the configured [favicon_path] when there is one
    (share mode or not), and otherwise the logo of the static root, or its
    hosted copy in share mode. *)
Theorem favicon_always_served env app :
  os env = posix →
  favicon env app =
    (Return (VResponse
       match favicon_path (app_blocks app) with
       | Some p => FileResponse p
       | None =>
           if share (app_blocks app)
           then RedirectResponse (GRADIO_STATIC_ROOT env +:+ "img/logo.svg") 307 []
           else FileResponse (posixpath.join (STATIC_PATH_LIB env) "img/logo.svg")
       end), app).
Proof.
  intros Hos. unfold favicon. step_handler.
  destruct (favicon_path (app_blocks app)) as [p|]; [done|].
  rewrite static_resource_run, Hos.
  destruct (share (app_blocks app)); [done|].
  change "img/logo.svg" with (str.join "/" ["img"; "logo.svg"]).
  rewrite safe_join_plain; [done|done|].
  repeat constructor; done.
Qed.

Lemma favicon_always_served_witness :
  favicon sample_env (sample_app None false false)
    = (Return (VResponse
         (FileResponse "/pkg/gradio/templates/frontend/static/img/logo.svg")),
       sample_app None false false).
Proof.
  exact (favicon_always_served sample_env (sample_app None false false) eq_refl).
Defined.

(** ** The file route *)

Lemma elem_of_parents (x parts : list string) :
  x ∈ parents parts ↔ x ≠ [] ∧ ∃ rest, rest ≠ [] ∧ parts = x ++ rest.
Proof.
  split.
  - intros Hx. split; [|by apply parents_proper_prefix].
    unfold parents in Hx. apply list_elem_of_fmap in Hx as (n & -> & Hn).
    rewrite elem_of_reverse, elem_of_seq in Hn.
    intros Hnil. apply (f_equal length) in Hnil. rewrite length_take in Hnil.
    simpl in Hnil. lia.
  - intros (Hx & rest & Hrest & ->). unfold parents.
    apply list_elem_of_fmap. exists (length x). split.
    + by rewrite take_app_length.
    + rewrite elem_of_reverse, elem_of_seq, length_app.
      destruct x; [done|]. destruct rest; [done|]. simpl. lia.
Qed.

(** X18. Outside the encrypted branch, [/file/{path}] raises only what
    resolving the working directory or the path raises (a path with an
    embedded null character, for one), and raises that. When both resolve
    it serves exactly the paths that resolve strictly below the working
    directory: then it answers with the resolved file; for every other
    path, the working directory itself included, the function ends
    without an answer and returns [None]. It never changes the state. *)
Theorem file_plain_branch env path app :
  let b := app_blocks app in
  encrypt b && match examples b with
               | ExamplesDir dir => str.startswith path dir
               | _ => false
               end = false →
  (∀ cwd_parts path_parts,
     resolve env (app_cwd app) = Return cwd_parts →
     resolve env path = Return path_parts →
     let below :=
       cwd_parts ≠ [] ∧ ∃ rest, rest ≠ [] ∧ path_parts = cwd_parts ++ rest in
     (below →
        file env path app
          = (Return (VResponse (FileResponseResolved path_parts)), app))
     ∧ (¬ below → file env path app = (Return VNone, app)))
  ∧ (∀ e, resolve env (app_cwd app) = Raise e →
          file env path app = (Raise e, app))
  ∧ (∀ cwd_parts e,
       resolve env (app_cwd app) = Return cwd_parts →
       resolve env path = Raise e →
       file env path app = (Raise e, app)).
Proof.
  intros b Hplain. rewrite file_run. cbn zeta. fold b. rewrite Hplain.
  split; [|split].
  - intros cwd_parts path_parts -> ->. split; intros Hbelow.
    + rewrite bool_decide_true; [done|]. by apply elem_of_parents.
    + rewrite bool_decide_false; [done|]. by rewrite elem_of_parents.
  - by intros e ->.
  - by intros cwd_parts e -> ->.
Qed.

Lemma file_plain_branch_witness :
  let app := sample_app None false false in
  file sample_env "data/../plots/out.png" app
    = (Return (VResponse (FileResponseResolved ["/"; "srv"; "app"; "plots"; "out.png"])),
       app)
  ∧ file sample_env "." app = (Return VNone, app)
  ∧ file sample_env (String "000" "x") app
    = (Raise (ValueError "embedded null byte"), app).
Proof.
  intros app. split; [|split].
  - apply (proj1 (proj1 (file_plain_branch sample_env "data/../plots/out.png" app
                           eq_refl) _ _ eq_refl eq_refl)).
    split; [discriminate|]. exists ["plots"; "out.png"]. by split.
  - apply (proj2 (proj1 (file_plain_branch sample_env "." app eq_refl)
                    _ _ eq_refl eq_refl)).
    intros (_ & rest & Hrest & Heq). vm_compute in Heq.
    destruct rest; [done|discriminate].
  - exact (proj2 (proj2 (file_plain_branch sample_env (String "000" "x") app
                           eq_refl)) _ _ eq_refl eq_refl).
Defined.

(** X19. In the encrypted branch a path that [safe_join] refuses is not
    answered 404: the [None] of [safe_join] is passed to [open], and the
    route raises [TypeError]. *)
Theorem file_encrypted_refused_path env path app dir :
  encrypt (app_blocks app) = true →
  examples (app_blocks app) = ExamplesDir dir →
  str.startswith path dir = true →
  path ≠ "" →
  rejects (os env) (posixpath.normpath path) = true →
  file env path app
    = (Raise (TypeError "expected str, bytes or os.PathLike object, not NoneType"),
       app).
Proof.
  intros Henc Hex Hdir Hne Hrej. unfold file. step_handler.
  rewrite Henc, Hex, Hdir. cbn [andb].
  by rewrite (safe_join_nonempty _ _ _ Hne), Hrej.
Qed.

Lemma file_encrypted_refused_path_witness :
  file sample_env "examples/../../etc/passwd" (encrypted_app "examples" "key")
    = (Raise (TypeError "expected str, bytes or os.PathLike object, not NoneType"),
       encrypted_app "examples" "key").
Proof.
  apply (file_encrypted_refused_path sample_env _ _ "examples");
    [reflexivity..|discriminate|reflexivity].
Defined.

(** ** Prediction: bodies of any shape *)

Lemma set_state_holder_id app k session_state :
  app_state_holder app !! k = Some session_state →
  set_state_holder (<[k := session_state]> (app_state_holder app)) app = app.
Proof.
  intros Hk. destruct app. unfold set_state_holder. cbn in *.
  by rewrite insert_id.
Qed.

(** The three ways [resolve_session] ends: it raises and changes nothing;
    it gives an empty state that is not stored; it gives the state stored
    under the key of the session, which is the one that was there or the
    initial one. *)
Lemma resolve_session_cases body app :
  (∃ e, resolve_session body app = (Raise e, app))
  ∨ resolve_session body app = (Return (None, ∅), app)
  ∨ ∃ k session_state,
      resolve_session body app
        = (Return (Some k, session_state),
           set_state_holder (<[k := session_state]> (app_state_holder app)) app)
      ∧ session_state
        = default (initial_session_state (app_blocks app)) (app_state_holder app !! k).
Proof.
  unfold resolve_session. step_handler.
  destruct (py_in "session_hash" body) as [[|]|e]; [|by right; left|by left; eexists].
  destruct (py_getitem body "session_hash") as [v|e]; [|by left; eexists].
  destruct (py_hash v) as [k|e]; [|by left; eexists].
  right. right. exists k.
  destruct (app_state_holder app !! k) as [st|] eqn:Hk.
  - exists st. rewrite bool_decide_false by done. cbn. rewrite Hk.
    by rewrite (set_state_holder_id _ _ _ Hk).
  - eexists. rewrite bool_decide_true by done. cbn. rewrite lookup_insert_eq.
    done.
Qed.

(** [predict] either raises before the pipeline is reached, with the state
    untouched, or reaches the pipeline on a resolved session state. *)
Lemma predict_cases request username app :
  (∃ e, predict request username app = (Raise e, app)
        ∧ (req_json request = Raise e
           ∨ ∃ body, req_json request = Return body
                     ∧ resolve_session body app = (Raise e, app)))
  ∨ ∃ body ref session_state app1,
      req_json request = Return body
      ∧ resolve_session body app = (Return (ref, session_state), app1)
      ∧ (app1 = app ∧ ref = None
         ∨ ∃ k, ref = Some k
                ∧ app1 = set_state_holder
                           (<[k := session_state]> (app_state_holder app)) app).
Proof.
  destruct (req_json request) as [body|e] eqn:Hbody.
  2:{ left. exists e. split; [|by left].
      unfold predict. step_handler. by rewrite Hbody. }
  destruct (resolve_session_cases body app) as [[e He]|[Hnone|(k & st & Hk & _)]].
  - left. exists e. split; [|right; eauto].
    unfold predict. step_handler. by rewrite Hbody, He.
  - right. exists body, None, ∅, app. eauto.
  - right. exists body, (Some k), st. eexists. split; [done|]. split; [exact Hk|].
    right. eauto.
Qed.

(** X20. [predict] touches the sessions and the trace and nothing else. For
    every request: the token table, the auth policy, the blocks, the
    working directory, the random source and the queue are as before; the
    trace is only extended; and no session is ever removed from
    [app.state_holder]. *)
Theorem predict_frame request username app :
  let app' := (predict request username app).2 in
  app_tokens app' = app_tokens app
  ∧ app_auth app' = app_auth app
  ∧ app_blocks app' = app_blocks app
  ∧ app_cwd app' = app_cwd app
  ∧ app_drawn app' = app_drawn app
  ∧ app_queue app' = app_queue app
  ∧ (∃ suffix, app_trace app' = app_trace app ++ suffix)
  ∧ (∀ k, is_Some (app_state_holder app !! k) → is_Some (app_state_holder app' !! k)).
Proof.
  destruct (predict_cases request username app)
    as [(e & -> & _)|(body & ref & st & app1 & Hbody & Hres & Happ1)].
  { cbn. repeat split; try done. exists []. by rewrite app_nil_r. }
  rewrite (predict_run _ username _ _ _ _ _ Hbody Hres), call_process_api_run.
  destruct Happ1 as [[-> ->]|(k & -> & ->)]; cbn [snd];
    destruct (process_api _ body username st) as [[output|error] st'];
    cbn [fst snd]; try destruct (show_error _); cbn;
    repeat split; try done; eauto using app_assoc;
    try (by rewrite <-app_assoc; eauto).
  all: intros k' Hk'; destruct (decide (k = k')) as [->|Hne];
    [rewrite lookup_insert_eq; eauto|by rewrite !lookup_insert_ne].
Qed.

(** X21. Sessions do not interfere. A request with a session hash leaves
    the state of every other session as it was. *)
Theorem predict_session_isolation request username app items v k :
  req_json request = Return (JDict items) →
  dict_get items "session_hash" = Some v →
  py_hash v = Return k →
  ∀ k', k' ≠ k →
    app_state_holder (predict request username app).2 !! k'
      = app_state_holder app !! k'.
Proof.
  intros Hbody Hget Hhash k' Hne.
  pose proof (resolve_session_with_hash items v k app Hget Hhash) as Hres.
  destruct (app_state_holder app !! k) as [st|] eqn:Hk.
  - destruct (predict_effect request username app _ _ _ _ Hbody Hres)
      as (_ & -> & _).
    by rewrite lookup_insert_ne.
  - destruct (predict_effect request username app _ _ _ _ Hbody Hres)
      as (_ & -> & _).
    cbn. by rewrite !lookup_insert_ne.
Qed.

Lemma predict_session_isolation_witness :
  let request := anonymous (JDict [("session_hash", JStr "abc")]) in
  let app := set_state_holder {[ HStr "xyz" := {[ 1%Z := JInt 5 ]} ]}
               (sample_app None false false) in
  app_state_holder (predict request None app).2 !! HStr "xyz"
    = Some {[ 1%Z := JInt 5 ]}.
Proof.
  intros request app.
  rewrite (predict_session_isolation request None app
             [("session_hash", JStr "abc")] (JStr "abc") (HStr "abc")
             eq_refl eq_refl eq_refl (HStr "xyz")); [|discriminate].
  reflexivity.
Defined.

(** X22. A [session_hash] that cannot be a dictionary key, a list or an
    object, makes [predict] raise [TypeError] at the lookup in
    [app.state_holder]: the pipeline is not called and nothing is
    stored. *)
Theorem predict_unhashable_session_hash request username app items v :
  req_json request = Return (JDict items) →
  dict_get items "session_hash" = Some v →
  match v with
  | JList _ =>
      predict request username app
        = (Raise (TypeError "unhashable type: 'list'"), app)
  | JDict _ =>
      predict request username app
        = (Raise (TypeError "unhashable type: 'dict'"), app)
  | _ => ∃ k, py_hash v = Return k
  end.
Proof.
  intros Hbody Hget.
  assert (∀ e, py_hash v = Raise e →
            predict request username app = (Raise e, app)) as Hraise.
  { intros e He. unfold predict, resolve_session, py_in, py_getitem.
    step_handler. rewrite Hbody, Hget, He.
    by rewrite bool_decide_true by eauto. }
  destruct v; eauto.
Qed.

Lemma predict_unhashable_session_hash_witness :
  predict (anonymous (JDict [("session_hash", JList [JInt 1])])) None
          (sample_app None false false)
    = (Raise (TypeError "unhashable type: 'list'"), sample_app None false false).
Proof.
  exact (predict_unhashable_session_hash
           (anonymous (JDict [("session_hash", JList [JInt 1])])) None
           (sample_app None false false) _ (JList [JInt 1]) eq_refl eq_refl).
Defined.

(** X23. A body that is not a JSON object. [null], a boolean or a number
    makes [predict] raise [TypeError] at the membership test; a list with
    the item ["session_hash"], or a string that contains it, makes it
    raise [TypeError] at the subscript; in each case before the pipeline is
    called. Any other list or string goes to the pipeline with an empty
    session state. *)
Theorem predict_non_object_body request username app body :
  req_json request = Return body →
  let app' := (predict request username app).2 in
  let forwarded :=
    pipeline_calls (app_trace app')
      = pipeline_calls (app_trace app) ++ [CallProcessApi body username ∅]
    ∧ app_state_holder app' = app_state_holder app in
  match body with
  | JNull =>
      predict request username app
        = (Raise (TypeError "argument of type 'NoneType' is not iterable"), app)
  | JBool _ =>
      predict request username app
        = (Raise (TypeError "argument of type 'bool' is not iterable"), app)
  | JInt _ =>
      predict request username app
        = (Raise (TypeError "argument of type 'int' is not iterable"), app)
  | JList items =>
      if existsb (λ j, match j with JStr s => String.eqb s "session_hash" | _ => false end)
                 items
      then predict request username app
             = (Raise (TypeError "list indices must be integers or slices, not str"),
                app)
      else forwarded
  | JStr s =>
      if str.contains "session_hash" s
      then predict request username app
             = (Raise (TypeError "string indices must be integers"), app)
      else forwarded
  | JDict _ => True
  end.
Proof.
  intros Hbody app' forwarded.
  assert (∀ e, resolve_session body app = (Raise e, app) →
            predict request username app = (Raise e, app)) as Hraise.
  { intros e He. unfold predict. step_handler. by rewrite Hbody, He. }
  assert (resolve_session body app = (Return (None, ∅), app) → forwarded)
    as Hforward.
  { intros Hres. subst forwarded app'.
    by destruct (predict_effect request username app body _ _ _ Hbody Hres)
      as (? & ? & _). }
  destruct body as [| | |s|items|items]; try (by apply Hraise); [| |done].
  - destruct (str.contains "session_hash" s) eqn:Hin.
    + apply Hraise. unfold resolve_session, py_in. step_handler. by rewrite Hin.
    + apply Hforward. unfold resolve_session, py_in. step_handler. by rewrite Hin.
  - destruct (existsb _ items) eqn:Hin.
    + apply Hraise. unfold resolve_session, py_in. step_handler. by rewrite Hin.
    + apply Hforward. unfold resolve_session, py_in. step_handler. by rewrite Hin.
Qed.

Lemma predict_non_object_body_witness :
  predict (anonymous JNull) None (sample_app None false false)
    = (Raise (TypeError "argument of type 'NoneType' is not iterable"),
       sample_app None false false).
Proof.
  exact (predict_non_object_body (anonymous JNull) None
           (sample_app None false false) JNull eq_refl).
Defined.

(** X24. When the pipeline returns, [predict] returns its output as it is,
    whatever [show_error] says, and the trace holds the pipeline call and
    nothing after it. *)
Theorem predict_returns_output
    request username app body ref session_state app1 output :
  req_json request = Return body →
  resolve_session body app = (Return (ref, session_state), app1) →
  (process_api (app_blocks app) body username session_state).1 = inl output →
  let called := (call_process_api body username ref session_state app1).2 in
  predict request username app = (Return (VJson output), called)
  ∧ app_trace called = app_trace app ++ [CallProcessApi body username session_state].
Proof.
  intros Hbody Hsession Houtput called.
  destruct (resolve_session_frame _ _ _ _ Hsession) as (Hb & Ht & _ & _).
  pose proof (predict_run _ username _ _ _ _ _ Hbody Hsession) as Hrun.
  rewrite Hb, Houtput in Hrun. split; [done|].
  subst called. rewrite call_process_api_run. cbn [snd].
  destruct ref; cbn; by rewrite Ht.
Qed.

Lemma predict_returns_output_witness :
  let body := JDict [("session_hash", JInt 7)] in
  predict (anonymous body) None (sample_app None false true)
    = (Return (VJson (JDict [("data", JList [JInt 1])])),
       (call_process_api body None (Some (HInt 7)) {[ 1%Z := JInt 0 ]}
          (set_state_holder {[ HInt 7 := {[ 1%Z := JInt 0 ]} ]}
             (sample_app None false true))).2).
Proof.
  intros body.
  exact (proj1 (predict_returns_output (anonymous body) None
           (sample_app None false true) body (Some (HInt 7)) {[ 1%Z := JInt 0 ]} _
           (JDict [("data", JList [JInt 1])]) eq_refl eq_refl eq_refl)).
Defined.

(** X25. A session is created once. Resolving the session of the same body
    again gives the same state and changes nothing more. *)
Theorem resolve_session_idempotent body app x app1 :
  resolve_session body app = (Return x, app1) →
  resolve_session body app1 = (Return x, app1).
Proof.
  unfold resolve_session. step_handler.
  destruct (py_in "session_hash" body) as [[|]|e]; [| |done].
  2:{ by intros [= <- <-]. }
  destruct (py_getitem body "session_hash") as [v|e]; [|done].
  destruct (py_hash v) as [k|e]; [|done].
  case_bool_decide as Hk; cbn.
  - rewrite lookup_insert_eq. intros [= <- <-]. cbn.
    rewrite bool_decide_false by (by rewrite lookup_insert_eq).
    cbn. by rewrite lookup_insert_eq.
  - destruct (app_state_holder app !! k) as [st|] eqn:Hst; [|congruence].
    intros [= <- <-]. rewrite bool_decide_false by congruence. cbn.
    by rewrite Hst.
Qed.

Lemma resolve_session_idempotent_witness :
  let body := JDict [("session_hash", JStr "abc")] in
  let app1 := set_state_holder {[ HStr "abc" := {[ 1%Z := JInt 0 ]} ]}
                (sample_app None false false) in
  resolve_session body app1 = (Return (Some (HStr "abc"), {[ 1%Z := JInt 0 ]}), app1).
Proof.
  intros body app1.
  exact (resolve_session_idempotent body (sample_app None false false) _ _ eq_refl).
Defined.

(** ** [get_types] *)

Lemma split_cons a s sep :
  str.split (String a s) sep =
    if Ascii.eqb a sep then "" :: str.split s sep
    else match str.split s sep with
         | [] => [String a ""]
         | c :: cs => String a c :: cs
         end.
Proof. reflexivity. Qed.

Lemma without_cons sep a s :
  without sep (String a s) ↔ Ascii.eqb a sep = false ∧ without sep s.
Proof.
  unfold without. change (str.contains (String sep "") (String a s))
    with (str.startswith (String a s) (String sep "")
          || str.contains (String sep "") s).
  rewrite startswith_cons, (Ascii.eqb_sym sep a), orb_false_iff.
  change (str.startswith s "") with true. by rewrite andb_true_r.
Qed.

Lemma append_cons a (s t : string) : String a s +:+ t = String a (s +:+ t).
Proof. reflexivity. Qed.

Lemma append_assoc (a b c : string) : (a +:+ b) +:+ c = a +:+ (b +:+ c).
Proof.
  induction a as [|x a IH]; [done|]. by rewrite !append_cons, IH.
Qed.

Lemma without_app sep a b :
  without sep a → without sep b → without sep (a +:+ b).
Proof.
  intros Ha Hb. induction a as [|x a IH]; [done|].
  apply without_cons in Ha as [Hx Ha]. rewrite append_cons.
  apply without_cons. auto.
Qed.

Lemma split_without s sep : without sep s → str.split s sep = [s].
Proof.
  induction s as [|a s IH]; [done|].
  intros [Ha Hs]%without_cons. by rewrite split_cons, Ha, (IH Hs).
Qed.

Lemma split_app_char c s sep :
  without sep c →
  str.split (c +:+ String sep s) sep = c :: str.split s sep.
Proof.
  induction c as [|a c IH].
  - intros _. change ("" +:+ String sep s) with (String sep s).
    by rewrite split_cons, Ascii.eqb_refl.
  - intros [Ha Hc]%without_cons. by rewrite append_cons, split_cons, Ha, (IH Hc).
Qed.

(** The items after the last separator are those of what follows it. *)
Lemma split_app_any a b sep :
  ∃ pre, pre ≠ [] ∧ str.split (a +:+ String sep b) sep = pre ++ str.split b sep.
Proof.
  induction a as [|x a (pre & Hpre & IH)].
  - exists [""]. split; [done|]. change ("" +:+ String sep b) with (String sep b).
    by rewrite split_cons, Ascii.eqb_refl.
  - rewrite append_cons, split_cons, IH.
    destruct (Ascii.eqb x sep).
    + by exists ("" :: pre).
    + destruct pre as [|p pre]; [done|]. by exists (String x p :: pre).
Qed.

Lemma last_split_app a b sep :
  without sep b →
  last (str.split (a +:+ String sep b) sep) = Some b.
Proof.
  intros Hb. destruct (split_app_any a b sep) as (pre & _ & ->).
  rewrite (split_without _ _ Hb). apply last_snoc.
Qed.

Lemma get_types_loop_lengths getdoc pick cls_set docset types docset' types' :
  get_types_loop getdoc pick cls_set docset types = inr (docset', types') →
  length docset' = length docset + length cls_set
  ∧ length types' = length types + length cls_set.
Proof.
  revert docset types.
  induction cls_set as [|cls cls_set IH]; intros docset types; cbn.
  - intros [= <- <-]. lia.
  - destruct (doc_lines_of (getdoc cls)) as [e|doc_lines]; [done|].
    destruct (pick doc_lines) as [e|line]; [done|].
    intros H. apply IH in H. rewrite !length_app in H. cbn in H. lia.
Qed.

(** X26. When [get_types] returns, it has one description and one type for
    each class it was given. *)
Theorem get_types_lengths cls_set component docset types :
  get_types cls_set component = inr (docset, types) →
  length docset = length cls_set ∧ length types = length cls_set.
Proof.
  unfold get_types.
  destruct (String.eqb component "input"); intros H;
    apply get_types_loop_lengths in H; cbn in H; lia.
Qed.

Lemma get_types_loop_app getdoc pick l1 l2 docset types :
  get_types_loop getdoc pick (l1 ++ l2) docset types =
    match get_types_loop getdoc pick l1 docset types with
    | inl e => inl e
    | inr (docset', types') => get_types_loop getdoc pick l2 docset' types'
    end.
Proof.
  revert docset types. induction l1 as [|cls l1 IH]; intros docset types; cbn.
  - done.
  - destruct (doc_lines_of (getdoc cls)) as [e|doc_lines]; [done|].
    destruct (pick doc_lines) as [e|line]; [done|]. apply IH.
Qed.

(** The line [get_types] reads in the docstring of a class. *)
Lemma get_types_loop_lines getdoc pick cls_set lines docset types :
  Forall2 (λ cls line, ∃ doc_lines, doc_lines_of (getdoc cls) = inr doc_lines
                                    ∧ pick doc_lines = inr line)
          cls_set lines →
  get_types_loop getdoc pick cls_set docset types
    = inr (docset ++ (doc_of_line <$> lines), types ++ (type_of_line <$> lines)).
Proof.
  intros Hlines. revert docset types.
  induction Hlines as [|cls line cls_set lines (doc_lines & Hdoc & Hpick) _ IH];
    intros docset types; cbn.
  - by rewrite !app_nil_r.
  - rewrite Hdoc, Hpick, IH, <-!app_assoc. done.
Qed.

(** X27. [get_types] answers class by class, in order. For input
    components, when every [preprocess] docstring has a second line, the
    descriptions are what follows the last [":"] of those lines and the
    types what stands between the last ["("] and the first [")"]; for
    output components the same holds of the last line of the [postprocess]
    docstrings. Any [component] other than ["input"] is read as output. *)
Theorem get_types_in_order cls_set component lines :
  Forall2 (λ cls line,
             if String.eqb component "input"
             then ∃ doc, getdoc_preprocess cls = Some doc
                         ∧ second_line (str.split doc newline) = inr line
             else ∃ doc, getdoc_postprocess cls = Some doc
                         ∧ last (str.split doc newline) = Some line)
          cls_set lines →
  get_types cls_set component
    = inr (doc_of_line <$> lines, type_of_line <$> lines).
Proof.
  intros Hlines. unfold get_types.
  destruct (String.eqb component "input").
  - apply (get_types_loop_lines getdoc_preprocess second_line cls_set lines [] []).
    eapply Forall2_impl; [exact Hlines|].
    intros cls line (doc & Hdoc & Hline). exists (str.split doc newline).
    by rewrite Hdoc.
  - apply (get_types_loop_lines getdoc_postprocess last_line cls_set lines [] []).
    eapply Forall2_impl; [exact Hlines|].
    intros cls line (doc & Hdoc & Hline). exists (str.split doc newline).
    unfold last_line. by rewrite Hdoc, Hline.
Qed.

(** X28. What [get_types] makes of a documented parameter. On a line
    [name (type): description], with no [")"] in the name, no parenthesis
    in the type and no [":"] in the description, the type is [type] and
    the description is [description] with the blank that follows the
    colon. *)
Theorem docstring_line_parsed name ty desc :
  without ")" name → without ")" ty → without "(" ty → without ":" desc →
  let line := name +:+ " (" +:+ ty +:+ "): " +:+ desc in
  doc_of_line line = " " +:+ desc ∧ type_of_line line = ty.
Proof.
  intros Hname Hty1 Hty2 Hdesc line. split.
  - unfold doc_of_line.
    assert (line = (name +:+ " (" +:+ ty +:+ ")") +:+ String ":" (String " " desc))
      as -> by (subst line; by rewrite !append_assoc).
    rewrite last_split_app; [done|].
    apply without_cons. by split.
  - unfold type_of_line.
    assert (line = (name +:+ " (" +:+ ty) +:+ String ")" (String ":" (String " " desc)))
      as -> by (subst line; by rewrite !append_assoc).
    rewrite split_app_char.
    + cbn [head default from_option id].
      assert (name +:+ " (" +:+ ty = (name +:+ " ") +:+ String "(" ty) as ->
        by (by rewrite !append_assoc).
      unfold id. by rewrite last_split_app.
    + apply without_app; [done|]. by apply (without_app _ " (" ty).
Qed.

Lemma docstring_line_parsed_witness :
  doc_of_line "x (str): text input" = " text input"
  ∧ type_of_line "x (str): text input" = "str".
Proof. by apply (docstring_line_parsed "x" "str" "text input"). Defined.

Lemma get_types_in_order_witness :
  get_types [mkComponentClass (Some ("Parameters:" +:+ String newline "x (str): text"))
                              None;
             mkComponentClass (Some ("Parameters:" +:+ String newline
                                       ("y (float): level" +:+ String newline "Returns:")))
                              None]
            "input"
    = inr ([" text"; " level"], ["str"; "float"]).
Proof.
  apply (get_types_in_order _ "input" ["x (str): text"; "y (float): level"]).
  repeat constructor; eexists; split; reflexivity.
Defined.

Lemma get_types_lengths_witness :
  length [" text"; " level"] = 2 ∧ length ["str"; "float"] = 2.
Proof.
  exact (get_types_lengths
    [mkComponentClass (Some ("Parameters:" +:+ String newline "x (str): text")) None;
     mkComponentClass (Some ("Parameters:" +:+ String newline
                               ("y (float): level" +:+ String newline "Returns:")))
                      None]
    "input" _ _ eq_refl).
Defined.

Lemma get_types_loop_succeeds getdoc pick cls_set docset types :
  (∃ r, get_types_loop getdoc pick cls_set docset types = inr r)
  ↔ Forall (λ cls, ∃ doc_lines line, doc_lines_of (getdoc cls) = inr doc_lines
                                     ∧ pick doc_lines = inr line) cls_set.
Proof.
  revert docset types.
  induction cls_set as [|cls cls_set IH]; intros docset types; cbn.
  - split; [by constructor|by eexists].
  - destruct (doc_lines_of (getdoc cls)) as [e|doc_lines] eqn:Hdoc.
    { split; [by intros [? ?]|].
      intros H. inversion H as [|? ? (? & ? & ? & _) _]; subst. congruence. }
    destruct (pick doc_lines) as [e|line] eqn:Hpick.
    { split; [by intros [? ?]|].
      intros H. inversion H as [|? ? (? & ? & Hd & Hp) _]; subst.
      congruence. }
    rewrite IH. split.
    + intros H. constructor; [|done]. by exists doc_lines, line.
    + intros H. by inversion H.
Qed.

Lemma split_length_with s sep :
  ¬ without sep s → 2 ≤ length (str.split s sep).
Proof.
  induction s as [|a s IH]; [done|].
  intros Hs. rewrite split_cons.
  pose proof (split_nonempty s sep) as Hne.
  destruct (Ascii.eqb a sep) eqn:Ha.
  - destruct (str.split s sep); [done|cbn; lia].
  - assert (¬ without sep s) as Hs'.
    { intros H. apply Hs. by apply without_cons. }
    specialize (IH Hs'). destruct (str.split s sep) as [|? [|? ?]]; cbn in *; lia.
Qed.

(** A docstring has a second line exactly when it contains a line
    break. *)
Lemma second_line_iff doc :
  (∃ line, second_line (str.split doc newline) = inr line)
  ↔ ¬ without newline doc.
Proof.
  split.
  - intros [line Hline] Hdoc. by rewrite (split_without _ _ Hdoc) in Hline.
  - intros Hdoc. apply split_length_with in Hdoc.
    destruct (str.split doc newline) as [|? [|line ?]]; cbn in *; [lia..|].
    by exists line.
Qed.

(** X29. When [get_types] fails. For input components it returns exactly
    when every class has a [preprocess] docstring with a line break in it:
    a class without docstring ends it with [AttributeError], a docstring
    of one line with [IndexError]. For output components it returns
    exactly when every class has a [postprocess] docstring, whatever its
    shape. *)
Theorem get_types_returns_iff cls_set component :
  (∃ r, get_types cls_set component = inr r)
  ↔ Forall (λ cls,
              if String.eqb component "input"
              then ∃ doc, getdoc_preprocess cls = Some doc ∧ ¬ without newline doc
              else is_Some (getdoc_postprocess cls))
           cls_set.
Proof.
  unfold get_types. destruct (String.eqb component "input");
    rewrite get_types_loop_succeeds; apply Forall_proper; try done; intros cls.
  - split.
    + intros (doc_lines & line & Hdoc & Hline).
      destruct (getdoc_preprocess cls) as [doc|]; [|done].
      injection Hdoc as <-. exists doc. split; [done|].
      apply second_line_iff. eauto.
    + intros (doc & -> & Hdoc). apply second_line_iff in Hdoc as [line Hline].
      by exists (str.split doc newline), line.
  - split.
    + intros (doc_lines & line & Hdoc & _).
      by destruct (getdoc_postprocess cls).
    + intros [doc ->]. exists (str.split doc newline). unfold last_line.
      destruct (last (str.split doc newline)) as [line|] eqn:Hlast.
      * by exists line.
      * apply last_None in Hlast. by apply split_nonempty in Hlast.
Qed.
